(** * libmkc: the asynchronous LED controller of masterkeys-linux

    A shallow embedding of [src/libmkc/libmkc.c] and the properties of its
    controller, instruction queue, worker loop and join.

    Conventions of the embedding.
    - C integers are [Z]; [unsigned int] arithmetic is reduced modulo
      [2^32]; an [unsigned char] is a [Z] between 0 and 255.
    - A pointer [LibMK_Instruction*] is the chain of nodes reached from it
      through [next]: [NULL] is [[]], a pointer to a node [n] whose [next]
      field reaches the chain [l] is [n :: l].
    - [malloc] returns a block whose bytes are indeterminate: every function
      that allocates takes the content found in the fresh block as an
      argument and overwrites only the fields the C code assigns.
    - [malloc] and [free] are recorded as a list of [MemEvent]s returned next
      to the value.
    - The four pthread mutexes protect single reads and writes; a critical
      section is one atomic step of the embedding.  The worker loop
      interleaves with the other threads between two iterations.
    - A [double] is an IEEE 754 binary64 number ([spec_float] with 53 bits
      of precision); the deadline test of join and the test of the busy
      wait are computed in that arithmetic.  The deadline test of join is
      given a second time on exact rationals, for the properties that do
      not depend on rounding. *)

From Stdlib Require Import ZArith QArith List Bool Lia.
From Stdlib Require Import SpecFloat.
Import ListNotations.

Open Scope Z_scope.

(** ** Types of the absent header [libmkc.h] *)

(** Modelled from the spec: the enum [LibMK_Result] is declared in a header
    that is not part of the sources.  Section 6 describes "a result
    distinguishing success from a small closed set of transport error codes";
    the C file names [LIBMK_SUCCESS] and [LIBMK_ERR_STILL_ACTIVE], the other
    codes are the transport's. *)
Inductive LibMK_Result : Type :=
| LIBMK_SUCCESS
| LIBMK_ERR_STILL_ACTIVE
| LIBMK_ERR_TRANSPORT (code : Z).

Definition result_eqb (a b : LibMK_Result) : bool :=
  match a, b with
  | LIBMK_SUCCESS, LIBMK_SUCCESS => true
  | LIBMK_ERR_STILL_ACTIVE, LIBMK_ERR_STILL_ACTIVE => true
  | LIBMK_ERR_TRANSPORT x, LIBMK_ERR_TRANSPORT y => Z.eqb x y
  | _, _ => false
  end.

(** Modelled from the spec: the enum [LibMK_Controller_State] of the absent
    header; section 4.3 lists the states Inactive, Active and JoinTimeout.
    The C file names [LIBMK_STATE_ACTIVE] and [LIBMK_STATE_JOIN_ERR]. *)
Inductive LibMK_Controller_State : Type :=
| LIBMK_STATE_INACTIVE
| LIBMK_STATE_ACTIVE
| LIBMK_STATE_JOIN_ERR.

Definition state_eqb (a b : LibMK_Controller_State) : bool :=
  match a, b with
  | LIBMK_STATE_INACTIVE, LIBMK_STATE_INACTIVE => true
  | LIBMK_STATE_ACTIVE, LIBMK_STATE_ACTIVE => true
  | LIBMK_STATE_JOIN_ERR, LIBMK_STATE_JOIN_ERR => true
  | _, _ => false
  end.

(** Opaque identifiers handed to the transport. *)
Definition LibMK_Device : Type := Z.
Definition LibMK_Model : Type := Z.

(** [unsigned int]: the type of the [id] argument of
    [libmk_cancel_instruction]. *)
Definition UINT_MODULUS : Z := 2 ^ 32.
Definition uint (z : Z) : Z := z mod UINT_MODULUS.

(** [struct LibMK_Instruction] without its [next] field, which is the tail
    of the chain the node sits in.  [colors] is a pointer to a flat buffer of
    [LIBMK_MAX_ROWS * LIBMK_MAX_COLS * 3] bytes, or [NULL]. *)
Record LibMK_Instruction : Type := mkInstruction {
  duration : Z;
  id : Z;
  color : Z * Z * Z;
  colors : option (list Z)
}.

Definition set_id (i : LibMK_Instruction) (n : Z) : LibMK_Instruction :=
  {| duration := duration i; id := n; color := color i; colors := colors i |}.

Definition set_color (i : LibMK_Instruction) (c : Z * Z * Z)
  : LibMK_Instruction :=
  {| duration := duration i; id := id i; color := c; colors := colors i |}.

Definition set_colors (i : LibMK_Instruction) (p : option (list Z))
  : LibMK_Instruction :=
  {| duration := duration i; id := id i; color := color i; colors := p |}.

(** ** The transport *)

Inductive LibMK_Call : Type :=
| Call_enable_control
| Call_disable_control
| Call_send_control_packet
| Call_set_all_led_color (leds : list Z).

(** Modelled from the spec: the transport collaborator of section 6
    ([libmk_enable_control], [libmk_disable_control],
    [libmk_send_control_packet], [libmk_set_all_led_color]) is not part of the
    sources.  A handle answers each call with a result that may depend on
    the call and on every call made before, and records the calls it
    receives. *)
Record LibMK_Handle : Type := mkHandle {
  reply : list LibMK_Call -> LibMK_Call -> LibMK_Result;
  calls : list LibMK_Call
}.

Definition transport (h : LibMK_Handle) (k : LibMK_Call)
  : LibMK_Handle * LibMK_Result :=
  ({| reply := reply h; calls := calls h ++ [k] |}, reply h (calls h) k).

Definition libmk_enable_control (h : LibMK_Handle) :=
  transport h Call_enable_control.
Definition libmk_disable_control (h : LibMK_Handle) :=
  transport h Call_disable_control.
Definition libmk_send_control_packet (h : LibMK_Handle) :=
  transport h Call_send_control_packet.
Definition libmk_set_all_led_color (h : LibMK_Handle) (leds : list Z) :=
  transport h (Call_set_all_led_color leds).

(** ** Memory events *)

Inductive Block : Type :=
| Blk_controller
| Blk_instruction (i : LibMK_Instruction)
| Blk_colors (buf : list Z).

Inductive MemEvent : Type :=
| Malloc (b : Block)
| Free (b : Block).

(** ** The controller *)

(** [struct LibMK_Controller]; the thread identifier and the four mutexes
    carry no data of their own. *)
Record LibMK_Controller : Type := mkController {
  device : LibMK_Handle;
  instr : list LibMK_Instruction;
  exit_flag : bool;
  state : LibMK_Controller_State;
  error : LibMK_Result
}.

Definition set_device (c : LibMK_Controller) (h : LibMK_Handle) :=
  {| device := h; instr := instr c; exit_flag := exit_flag c;
     state := state c; error := error c |}.

Definition set_instr (c : LibMK_Controller) (q : list LibMK_Instruction) :=
  {| device := device c; instr := q; exit_flag := exit_flag c;
     state := state c; error := error c |}.

Definition set_exit_flag (c : LibMK_Controller) (b : bool) :=
  {| device := device c; instr := instr c; exit_flag := b;
     state := state c; error := error c |}.

Definition set_error (c : LibMK_Controller) (e : LibMK_Result) :=
  {| device := device c; instr := instr c; exit_flag := exit_flag c;
     state := state c; error := e |}.

(** Writing index [n] of a buffer; the C code never writes out of range
    (an out-of-range write is undefined in C and leaves the buffer alone
    here). *)
Fixpoint store (n : nat) (v : Z) (buf : list Z) : list Z :=
  match buf, n with
  | [], _ => []
  | _ :: t, O => v :: t
  | x :: t, S m => x :: store m v t
  end.

Section Libmkc.

(** Constants and functions declared outside [libmkc.c]. *)
Variable LIBMK_MAX_ROWS : nat.
Variable LIBMK_MAX_COLS : nat.
Variable CLOCKS_PER_SEC : positive.
(** [libmk_create_handle(&device, identifier)]: the result code and the
    handle written through the out-parameter. *)
Variable libmk_create_handle : LibMK_Device -> LibMK_Result * LibMK_Handle.

(** [libmk_create_controller]: [block] is the content of the memory
    [malloc] hands out.  Only [device] is assigned (the mutexes are
    initialised, they carry no data). *)
Definition libmk_create_controller (block : LibMK_Controller)
           (identifier : LibMK_Device) (model : LibMK_Model)
  : option LibMK_Controller * list MemEvent :=
  let '(r, dev) := libmk_create_handle identifier in
  if negb (result_eqb r LIBMK_SUCCESS) then (None, [])
  else (Some (set_device block dev), [Malloc Blk_controller]).

Definition libmk_get_controller_state (c : LibMK_Controller)
  : LibMK_Controller_State := state c.

Definition libmk_get_controller_error (c : LibMK_Controller)
  : LibMK_Result := error c.

(** [libmk_start_controller]: the third component tells whether
    [pthread_create] was called.  The thread is handed [&controller],
    the address of this function's own parameter, not the controller;
    what the thread runs on is not part of the embedding, and the
    properties of [libmk_run_controller] below are those of the function
    applied to a controller. *)
Definition libmk_start_controller (controller : LibMK_Controller)
  : LibMK_Result * LibMK_Controller * bool :=
  let '(dev, r) := libmk_enable_control (device controller) in
  let controller := set_device controller dev in
  if negb (result_eqb r LIBMK_SUCCESS) then (r, controller, false)
  else (LIBMK_SUCCESS, controller, true).

Definition libmk_set_controller_error (c : LibMK_Controller)
           (e : LibMK_Result) : LibMK_Controller :=
  if result_eqb (error c) LIBMK_SUCCESS then set_error c e else c.

Definition color_at (c : Z * Z * Z) (k : nat) : Z :=
  let '(c0, c1, c2) := c in
  match k with O => c0 | S O => c1 | _ => c2 end.

(** The local array [colors[LIBMK_MAX_ROWS][LIBMK_MAX_COLS][3]] of
    [libmk_exec_instruction] once its three loops have run, as the flat
    memory the cast to [unsigned char*] reads. *)
Definition uniform_grid (c : Z * Z * Z) : list Z :=
  flat_map (fun _ : nat =>
    flat_map (fun _ : nat => map (color_at c) (seq 0 3))
             (seq 0 LIBMK_MAX_COLS))
    (seq 0 LIBMK_MAX_ROWS).

(** [libmk_exec_instruction]: [i] is [None] for a [NULL] pointer. *)
Definition libmk_exec_instruction (h : LibMK_Handle)
           (i : option LibMK_Instruction) : LibMK_Handle * LibMK_Result :=
  match i with
  | None => libmk_send_control_packet h
  | Some n =>
    match colors n with
    | Some buf => libmk_set_all_led_color h buf
    | None => libmk_set_all_led_color h (uniform_grid (color n))
    end
  end.

Definition libmk_stop_controller (controller : LibMK_Controller)
  : LibMK_Controller := set_exit_flag controller true.

Definition libmk_free_instruction (i : LibMK_Instruction) : list MemEvent :=
  match colors i with
  | Some buf => [Free (Blk_colors buf); Free (Blk_instruction i)]
  | None => [Free (Blk_instruction i)]
  end.

(** [libmk_create_instruction]: [block] and [block_next] are the content
    of the fresh block (its fields and the chain its [next] field reaches);
    [duration] and [id] are the only fields assigned.  The result is the new
    node, the chain behind it and the allocation. *)
Definition libmk_create_instruction (block : LibMK_Instruction)
           (block_next : list LibMK_Instruction)
  : LibMK_Instruction * list LibMK_Instruction * list MemEvent :=
  ({| duration := 0; id := 0; color := color block;
      colors := colors block |},
   block_next,
   [Malloc (Blk_instruction block)]).

Definition libmk_create_instruction_full (block : LibMK_Instruction)
           (block_next : list LibMK_Instruction) (c : Z * Z * Z)
  : LibMK_Instruction * list LibMK_Instruction * list MemEvent :=
  let '(i, nxt, ev) := libmk_create_instruction block block_next in
  (set_color i (color_at c 0, color_at c 1, color_at c 2), nxt, ev).

(** The element [c[row][col][j]] of a grid given as its flat memory. *)
Definition grid_at (c : list Z) (row col j : nat) : Z :=
  nth ((row * LIBMK_MAX_COLS + col) * 3 + j)%nat c 0.

(** The three loops of [libmk_create_instruction_all] over the buffer
    [buf]: the statement executed for each [row], [col], [j] is
    [i->colors[row * LIBMK_MAX_COLS + j] = c[row][col][j]]. *)
Definition copy_grid (c : list Z) (buf : list Z) : list Z :=
  fold_left (fun b row =>
    fold_left (fun b col =>
      fold_left (fun b j =>
        store (row * LIBMK_MAX_COLS + j)%nat (grid_at c row col j) b)
        (seq 0 3) b)
      (seq 0 LIBMK_MAX_COLS) b)
    (seq 0 LIBMK_MAX_ROWS) buf.

(** [libmk_create_instruction_all]: [buf] is the content of the block
    [malloc] returns for [colors]. *)
Definition libmk_create_instruction_all (block : LibMK_Instruction)
           (block_next : list LibMK_Instruction) (buf : list Z)
           (c : list Z)
  : LibMK_Instruction * list LibMK_Instruction * list MemEvent :=
  let '(i, nxt, ev) := libmk_create_instruction block block_next in
  (set_colors i (Some (copy_grid c buf)), nxt,
   ev ++ [Malloc (Blk_colors buf)]).

(** The walk of [libmk_sched_instruction] from the node [t] to the tail,
    where [i] is linked and numbered. *)
Fixpoint sched_walk (t : LibMK_Instruction) (t_next : list LibMK_Instruction)
         (i : LibMK_Instruction) (i_next : list LibMK_Instruction)
  : list LibMK_Instruction :=
  match t_next with
  | [] => t :: set_id i (uint (id t + 1)) :: i_next
  | t' :: rest => t :: sched_walk t' rest i i_next
  end.

(** [libmk_sched_instruction]: [i] is the node pointed to (never [NULL])
    and [i_next] the chain its own [next] field reaches. *)
Definition libmk_sched_instruction (c : LibMK_Controller)
           (i : LibMK_Instruction) (i_next : list LibMK_Instruction)
  : LibMK_Result * LibMK_Controller :=
  match instr c with
  | [] => (LIBMK_SUCCESS, set_instr c (set_id i 1 :: i_next))
  | t :: t_next => (LIBMK_SUCCESS, set_instr c (sched_walk t t_next i i_next))
  end.

(** The scan of [libmk_cancel_instruction] from [curr]: the chain that
    remains and what is freed. *)
Fixpoint cancel_scan (curr : list LibMK_Instruction) (n : Z)
  : list LibMK_Instruction * list MemEvent :=
  match curr with
  | [] => ([], [])
  | x :: nxt =>
    if Z.eqb (id x) n then (nxt, libmk_free_instruction x)
    else let '(q, ev) := cancel_scan nxt n in (x :: q, ev)
  end.

Definition libmk_cancel_instruction (c : LibMK_Controller) (n : Z)
  : LibMK_Result * LibMK_Controller * list MemEvent :=
  let '(q, ev) := cancel_scan (instr c) n in
  (LIBMK_SUCCESS, set_instr c q, ev).

(** *** The worker loop *)

(** What another thread may do to the controller while the worker runs. *)
Inductive CallerOp : Type :=
| Op_sched (i : LibMK_Instruction) (i_next : list LibMK_Instruction)
| Op_cancel (n : Z)
| Op_stop.

Definition caller (c : LibMK_Controller) (op : CallerOp)
  : LibMK_Controller * list MemEvent :=
  match op with
  | Op_sched i i_next => (snd (libmk_sched_instruction c i i_next), [])
  | Op_cancel n =>
    let '(_, c', ev) := libmk_cancel_instruction c n in (c', ev)
  | Op_stop => (libmk_stop_controller c, [])
  end.

Fixpoint callers (c : LibMK_Controller) (ops : list CallerOp)
  : LibMK_Controller * list MemEvent :=
  match ops with
  | [] => (c, [])
  | op :: rest =>
    let '(c1, ev1) := caller c op in
    let '(c2, ev2) := callers c1 rest in
    (c2, ev1 ++ ev2)
  end.

Inductive Flow : Type := Continue | Break.

(** One pass through the body of [while (true)] in
    [libmk_run_controller], taken as one step: the reads of
    [controller->instr] in the test for [NULL], in the call and in the
    unlinking, which the C code makes without [instr_lock], all see the
    same queue. *)
Definition run_iteration (controller : LibMK_Controller)
  : Flow * LibMK_Controller * list MemEvent :=
  if exit_flag controller then (Break, controller, [])
  else
    match instr controller with
    | [] => (Continue, controller, [])
    | old :: nxt =>
      let '(dev, r) :=
        libmk_exec_instruction (device controller) (Some old) in
      let controller := set_device controller dev in
      if negb (result_eqb r LIBMK_SUCCESS)
      then (Break, libmk_set_controller_error controller r, [])
      else (Continue, set_instr controller nxt, libmk_free_instruction old)
    end.

(** The statements after the loop. *)
Definition run_shutdown (controller : LibMK_Controller)
  : LibMK_Controller :=
  let '(dev, r) := libmk_disable_control (device controller) in
  let controller := set_device controller dev in
  if negb (result_eqb r LIBMK_SUCCESS)
  then libmk_set_controller_error controller r
  else controller.

(** The loop of [libmk_run_controller]: [env] lists, for each iteration,
    what the other threads do before it.  The flow is [Break] when an
    iteration has left the loop (the rest of [env] is then not looked at)
    and [Continue] when the loop is still running once [env] is used up. *)
Fixpoint run_loop (env : list (list CallerOp)) (controller : LibMK_Controller)
  : Flow * LibMK_Controller * list MemEvent :=
  match env with
  | [] => (Continue, controller, [])
  | ops :: env' =>
    let '(c0, ev0) := callers controller ops in
    match run_iteration c0 with
    | (Break, c1, ev1) => (Break, c1, ev0 ++ ev1)
    | (Continue, c1, ev1) =>
      let '(f, c2, ev2) := run_loop env' c1 in (f, c2, ev0 ++ ev1 ++ ev2)
    end
  end.

(** [libmk_run_controller]: the loop, then the shutdown.  [None]: the
    worker has not returned within [env]. *)
Definition libmk_run_controller (env : list (list CallerOp))
           (controller : LibMK_Controller)
  : option (LibMK_Controller * list MemEvent) :=
  match run_loop env controller with
  | (Break, c1, ev) => Some (run_shutdown c1, ev)
  | (Continue, _, _) => None
  end.

(** *** Join *)

(** [((double) (clock() - t)) / CLOCKS_PER_SEC] as an exact rational: the
    quotient before any rounding.  [elapsed_binary64] below is the double
    the machine computes. *)
Definition elapsed (now t : Z) : Q := (now - t) # CLOCKS_PER_SEC.

(** [elapsed > timeout] on exact rationals; [deadline_passed_binary64]
    below is the test on doubles. *)
Definition deadline_passed (now t : Z) (timeout : Q) : bool :=
  negb (Qle_bool (elapsed now t) timeout).

(** [libmk_join_controller], with the deadline test on exact rationals:
    [t] is the first reading of the clock; each element of [polls] is the
    controller as one iteration of the loop finds it and the clock reading
    of that iteration.  The result is the state returned and the controller
    as join leaves it; [None]: still polling when [polls] is used up. *)
Fixpoint libmk_join_controller (polls : list (LibMK_Controller * Z))
         (t : Z) (timeout : Q)
  : option (LibMK_Controller_State * LibMK_Controller) :=
  match polls with
  | [] => None
  | (controller, now) :: rest =>
    let s := state controller in
    if negb (state_eqb s LIBMK_STATE_ACTIVE) then Some (s, controller)
    else if deadline_passed now t timeout
         then Some (LIBMK_STATE_JOIN_ERR, controller)
         else libmk_join_controller rest t timeout
  end.

End Libmkc.

(** ** Release of a controller and the busy wait *)

Inductive Mutex : Type :=
| State_lock
| Exit_flag_lock
| Instr_lock
| Error_lock.

(** What [libmk_free_controller] does to the resources of a controller. *)
Inductive Teardown : Type :=
| Mutex_destroy (m : Mutex)
| Handle_free (h : LibMK_Handle)
| Memory (e : MemEvent).

Section Release.

(** [libmk_free_handle], declared outside [libmkc.c]: the result of
    releasing a handle. *)
Variable libmk_free_handle : LibMK_Handle -> LibMK_Result.

(** [libmk_free_controller]: the result and what was torn down, in
    order. *)
Definition libmk_free_controller (c : LibMK_Controller)
  : LibMK_Result * list Teardown :=
  if state_eqb (libmk_get_controller_state c) LIBMK_STATE_ACTIVE
  then (LIBMK_ERR_STILL_ACTIVE, [])
  else
    let destroyed :=
      [Mutex_destroy State_lock; Mutex_destroy Exit_flag_lock;
       Mutex_destroy Instr_lock; Mutex_destroy Error_lock] in
    let r := libmk_free_handle (device c) in
    if negb (result_eqb r LIBMK_SUCCESS)
    then (r, destroyed ++ [Handle_free (device c)])
    else (LIBMK_SUCCESS,
          destroyed ++ [Handle_free (device c); Memory (Free Blk_controller)]).

End Release.

(** ** The timing code in binary64 *)

(** A C [double]: IEEE 754 binary64, 53 bits of precision, exponents below
    1024. *)
Definition double : Type := spec_float.

(** [(double) z] for an integer [z]: the nearest double, ties to even. *)
Definition double_of_integer (z : Z) : double :=
  binary_normalize 53 1024 z 0 false.

Section Binary64.

Variable CLOCKS_PER_SEC : positive.

(** [((double) (clock() - t)) / CLOCKS_PER_SEC]: the difference of the two
    readings converted to a double and divided, in binary64, by the
    constant converted to a double. *)
Definition elapsed_binary64 (now t : Z) : double :=
  SFdiv 53 1024 (double_of_integer (now - t))
        (double_of_integer (Zpos CLOCKS_PER_SEC)).

(** [elapsed > timeout] on doubles. *)
Definition deadline_passed_binary64 (now t : Z) (timeout : double) : bool :=
  SFltb timeout (elapsed_binary64 now t).

(** [libmk_join_controller] with the deadline test as the machine computes
    it; [t], [polls] and the result are as for [libmk_join_controller]. *)
Fixpoint libmk_join_controller_binary64 (polls : list (LibMK_Controller * Z))
         (t : Z) (timeout : double)
  : option (LibMK_Controller_State * LibMK_Controller) :=
  match polls with
  | [] => None
  | (controller, now) :: rest =>
    let s := state controller in
    if negb (state_eqb s LIBMK_STATE_ACTIVE) then Some (s, controller)
    else if deadline_passed_binary64 now t timeout
         then Some (LIBMK_STATE_JOIN_ERR, controller)
         else libmk_join_controller_binary64 rest t timeout
  end.


End Binary64.

(** ** Fixtures *)

(** A transport that accepts every call. *)
Definition handle_ok : LibMK_Handle :=
  {| reply := fun _ _ => LIBMK_SUCCESS; calls := [] |}.

(** A transport that answers [e] to every led update, [d] to the request
    to leave control mode, and accepts the other calls. *)
Definition handle_rejecting (e d : LibMK_Result) : LibMK_Handle :=
  {| reply := fun _ k =>
       match k with
       | Call_set_all_led_color _ => e
       | Call_disable_control => d
       | _ => LIBMK_SUCCESS
       end;
     calls := [] |}.

Definition open_ok (_ : LibMK_Device) : LibMK_Result * LibMK_Handle :=
  (LIBMK_SUCCESS, handle_ok).

Definition open_failing (code : Z) (_ : LibMK_Device)
  : LibMK_Result * LibMK_Handle :=
  (LIBMK_ERR_TRANSPORT code, handle_ok).

(** An instruction setting every led to red, numbered [n]. *)
Definition red (n : Z) : LibMK_Instruction :=
  {| duration := 0; id := n; color := (255, 0, 0); colors := None |}.

(** A block of memory left behind by a controller that was running. *)
Definition stale_block : LibMK_Controller :=
  {| device := handle_ok; instr := [red 9]; exit_flag := true;
     state := LIBMK_STATE_ACTIVE; error := LIBMK_ERR_TRANSPORT 5 |}.

(** A controller at rest on a transport [h] with the queue [q]. *)
Definition controller_at_rest (h : LibMK_Handle) (q : list LibMK_Instruction)
  : LibMK_Controller :=
  {| device := h; instr := q; exit_flag := false;
     state := LIBMK_STATE_INACTIVE; error := LIBMK_SUCCESS |}.

(** The call [libmk_exec_instruction] makes for a node [i]: the payload
    [colors] when there is one, the grid filled with [color] otherwise. *)
Definition exec_call (rows cols : nat) (i : LibMK_Instruction) : LibMK_Call :=
  match colors i with
  | Some buf => Call_set_all_led_color buf
  | None => Call_set_all_led_color (uniform_grid rows cols (color i))
  end.

(** A controller marked Active whose worker has been asked to stop. *)
Definition stopping_controller : LibMK_Controller :=
  {| device := handle_ok; instr := []; exit_flag := true;
     state := LIBMK_STATE_ACTIVE; error := LIBMK_SUCCESS |}.

(** A controller whose earlier run has left the error 1 behind and whose
    transport now rejects led updates with the error 2. *)
Definition failed_before_controller : LibMK_Controller :=
  {| device := handle_rejecting (LIBMK_ERR_TRANSPORT 2) LIBMK_SUCCESS;
     instr := [red 1; red 2]; exit_flag := false;
     state := LIBMK_STATE_INACTIVE; error := LIBMK_ERR_TRANSPORT 1 |}.


(** The doubles 1.0, 2.0, 0.3 and 0.1. *)
Definition one_second : double := S754_finite false 4503599627370496 (-52).
Definition two_seconds : double := S754_finite false 4503599627370496 (-51).
Definition three_tenths : double := S754_finite false 5404319552844595 (-54).
Definition one_tenth : double := S754_finite false 7205759403792794 (-56).

(** A controller marked Active on an accepting transport. *)
Definition active_controller : LibMK_Controller :=
  {| device := handle_ok; instr := []; exit_flag := false;
     state := LIBMK_STATE_ACTIVE; error := LIBMK_SUCCESS |}.

(** A grid for a keyboard of 7 rows and 24 columns whose first led is red
    and whose other leds are dark, and a buffer of the same size as [malloc]
    may return it. *)
Definition first_led_red : list Z := 255 :: repeat 0 503.
Definition stale_buffer : list Z := repeat 170 504.

(** The id [libmk_sched_instruction] gives to a new instruction on the
    queue [q]. *)
Definition next_id (q : list LibMK_Instruction) : Z :=
  match q with
  | [] => 1
  | t :: rest => uint (id (last rest t) + 1)
  end.

(** The ids grow strictly along the queue. *)
Fixpoint ids_increasing (q : list LibMK_Instruction) : Prop :=
  match q with
  | [] => True
  | x :: rest => Forall (fun y => id x < id y) rest /\ ids_increasing rest
  end.


(** The transport of a controller accepts every led update. *)
Definition accepts_leds (h : LibMK_Handle) : Prop :=
  forall hist leds, reply h hist (Call_set_all_led_color leds) = LIBMK_SUCCESS.

(** The transport accepts every call. *)
Definition accepts_all (h : LibMK_Handle) : Prop :=
  forall hist k, reply h hist k = LIBMK_SUCCESS.

(** No other thread calls stop during the iterations [env]. *)
Definition no_stop (env : list (list CallerOp)) : Prop :=
  Forall (Forall (fun op => op <> Op_stop)) env.

(** The loop over [j] in [libmk_create_instruction_all] for one led, and
    the loop over [col] for one row. *)
Definition copy_led (cols : nat) (c : list Z) (row col : nat) (b : list Z)
  : list Z :=
  fold_left (fun b j => store (row * cols + j)%nat (grid_at cols c row col j) b)
            (seq 0 3) b.

Definition copy_row (cols : nat) (c : list Z) (row : nat) (b : list Z)
  : list Z :=
  fold_left (fun b col => copy_led cols c row col b) (seq 0 cols) b.

(** ** Properties *)

Lemma result_eqb_eq (a b : LibMK_Result) : result_eqb a b = true <-> a = b.
Proof.
  destruct a, b; simpl; split; intro H; try discriminate; try reflexivity.
  - apply Z.eqb_eq in H. now subst.
  - injection H as ->. apply Z.eqb_refl.
Qed.

Lemma result_eqb_neq (a b : LibMK_Result) : result_eqb a b = false <-> a <> b.
Proof.
  rewrite <- result_eqb_eq. destruct (result_eqb a b); split; congruence.
Qed.

Lemma state_eqb_eq (a b : LibMK_Controller_State) :
  state_eqb a b = true <-> a = b.
Proof. destruct a, b; simpl; split; congruence. Qed.

Lemma state_eqb_neq (a b : LibMK_Controller_State) :
  state_eqb a b = false <-> a <> b.
Proof. destruct a, b; simpl; split; congruence. Qed.

(** *** Creation *)

Section Creation.

Variable libmk_create_handle : LibMK_Device -> LibMK_Result * LibMK_Handle.

(** When the transport opens, the controller returned is the fresh block
    with its [device] field assigned and nothing else. *)
Lemma create_controller_success block identifier model :
  fst (libmk_create_handle identifier) = LIBMK_SUCCESS ->
  libmk_create_controller libmk_create_handle block identifier model
  = (Some (set_device block (snd (libmk_create_handle identifier))),
     [Malloc Blk_controller]).
Proof.
  unfold libmk_create_controller.
  destruct (libmk_create_handle identifier) as [r dev]; simpl.
  intros ->. reflexivity.
Qed.

(** C4 (amended): whenever the transport open primitive fails during
    create, create returns NULL, whatever the transport's error code is, and
    allocates nothing. *)
Theorem C4_create_open_failure block identifier model :
  fst (libmk_create_handle identifier) <> LIBMK_SUCCESS ->
  libmk_create_controller libmk_create_handle block identifier model
  = (None, []).
Proof.
  unfold libmk_create_controller.
  destruct (libmk_create_handle identifier) as [r dev]; simpl.
  intros Hr. apply result_eqb_neq in Hr. now rewrite Hr.
Qed.

End Creation.

Lemma C4_create_open_failure_witness :
  fst (open_failing 3 0) <> LIBMK_SUCCESS /\
  libmk_create_controller (open_failing 3) stale_block 0 0 = (None, []).
Proof.
  split; [discriminate |].
  apply (C4_create_open_failure (open_failing 3) stale_block 0 0).
  discriminate.
Defined.

(** C4 as stated fails: the value create returns cannot carry the
    transport's error code, since two opens failing with different codes
    give the caller the same value. *)
Lemma C4_counterexample :
  ~ (exists decode : option LibMK_Controller -> LibMK_Result,
        forall (open : LibMK_Device -> LibMK_Result * LibMK_Handle)
               block identifier model,
          fst (open identifier) <> LIBMK_SUCCESS ->
          decode (fst (libmk_create_controller open block identifier model))
          = fst (open identifier)).
Proof.
  intros [decode H].
  assert (H1 := H (open_failing 1) stale_block 0 0).
  assert (H2 := H (open_failing 2) stale_block 0 0).
  simpl in H1, H2.
  assert (E : LIBMK_ERR_TRANSPORT 1 = LIBMK_ERR_TRANSPORT 2).
  { rewrite <- H1, <- H2; [reflexivity | discriminate | discriminate]. }
  discriminate E.
Qed.

(** C2: create leaves [state], [instr], [error] and [exit_flag] as the
    fresh block holds them.  On a block left behind by a running controller
    the transport opens, and the controller returned is Active, has a queue,
    an error and a pending exit request. *)
Theorem C2_create_leaves_fields_unset :
  exists c,
    libmk_create_controller open_ok stale_block 0 0
    = (Some c, [Malloc Blk_controller]) /\
    libmk_get_controller_state c = LIBMK_STATE_ACTIVE /\
    instr c = [red 9] /\
    libmk_get_controller_error c = LIBMK_ERR_TRANSPORT 5 /\
    exit_flag c = true.
Proof.
  eexists. split; [reflexivity |]. repeat split.
Qed.

(** *** The state field *)

Lemma start_controller_state c :
  state (snd (fst (libmk_start_controller c))) = state c.
Proof.
  unfold libmk_start_controller.
  destruct (libmk_enable_control (device c)) as [dev r].
  destruct (negb (result_eqb r LIBMK_SUCCESS)); reflexivity.
Qed.

Lemma set_controller_error_state c e :
  state (libmk_set_controller_error c e) = state c.
Proof.
  unfold libmk_set_controller_error.
  destruct (result_eqb (error c) LIBMK_SUCCESS); reflexivity.
Qed.

Lemma caller_state c op : state (fst (caller c op)) = state c.
Proof.
  destruct op as [i i_next | n |]; simpl; try reflexivity.
  - unfold libmk_sched_instruction. destruct (instr c); reflexivity.
  - unfold libmk_cancel_instruction.
    destruct (cancel_scan (instr c) n); reflexivity.
Qed.

Lemma callers_state ops : forall c, state (fst (callers c ops)) = state c.
Proof.
  induction ops as [| op ops IH]; intros c; simpl; [reflexivity |].
  pose proof (caller_state c op) as H.
  destruct (caller c op) as [c1 ev1]. simpl in H.
  specialize (IH c1). destruct (callers c1 ops) as [c2 ev2]. simpl in *.
  congruence.
Qed.

Section Worker.

Variables ROWS COLS : nat.

Lemma exec_instruction_call h i :
  libmk_exec_instruction ROWS COLS h (Some i)
  = transport h (exec_call ROWS COLS i).
Proof.
  unfold libmk_exec_instruction, exec_call.
  destruct (colors i); reflexivity.
Qed.

Lemma run_iteration_state c :
  state (snd (fst (run_iteration ROWS COLS c))) = state c.
Proof.
  unfold run_iteration.
  destruct (exit_flag c); [reflexivity |].
  destruct (instr c) as [| old nxt]; [reflexivity |].
  destruct (libmk_exec_instruction ROWS COLS (device c) (Some old)) as [dev r].
  destruct (negb (result_eqb r LIBMK_SUCCESS)); simpl; [| reflexivity].
  now rewrite set_controller_error_state.
Qed.

Lemma run_shutdown_state c : state (run_shutdown c) = state c.
Proof.
  unfold run_shutdown.
  destruct (libmk_disable_control (device c)) as [dev r].
  destruct (negb (result_eqb r LIBMK_SUCCESS)); [| reflexivity].
  now rewrite set_controller_error_state.
Qed.

Lemma run_loop_state env :
  forall c, state (snd (fst (run_loop ROWS COLS env c))) = state c.
Proof.
  induction env as [| ops env IH]; intros c; simpl; [reflexivity |].
  pose proof (callers_state ops c) as H0.
  destruct (callers c ops) as [c0 ev0]. simpl in H0.
  pose proof (run_iteration_state c0) as H1.
  destruct (run_iteration ROWS COLS c0) as [[f c1] ev1]. simpl in H1.
  destruct f.
  - specialize (IH c1).
    destruct (run_loop ROWS COLS env c1) as [[f2 c2] ev2]. simpl in *.
    congruence.
  - simpl. congruence.
Qed.

(** Neither the loop nor the shutdown of the worker writes [state]. *)
Lemma run_controller_state env c c' ev :
  libmk_run_controller ROWS COLS env c = Some (c', ev) ->
  state c' = state c.
Proof.
  unfold libmk_run_controller.
  pose proof (run_loop_state env c) as H.
  destruct (run_loop ROWS COLS env c) as [[f c1] ev1]. simpl in H.
  destruct f; [discriminate |].
  intros E. injection E as <- _. now rewrite run_shutdown_state.
Qed.

(** Iterations that stay in the loop compose. *)
Lemma run_loop_app pre : forall env c c1 ev1,
  run_loop ROWS COLS pre c = (Continue, c1, ev1) ->
  run_loop ROWS COLS (pre ++ env) c
  = (let '(f, c2, ev2) := run_loop ROWS COLS env c1 in (f, c2, ev1 ++ ev2)).
Proof.
  induction pre as [| ops pre IH]; intros env c c1 ev1; simpl.
  - intros E. injection E as <- <-.
    destruct (run_loop ROWS COLS env c) as [[f c2] ev2]. reflexivity.
  - destruct (callers c ops) as [c0 ev0].
    destruct (run_iteration ROWS COLS c0) as [[f ci] evi].
    destruct f; [| discriminate].
    destruct (run_loop ROWS COLS pre ci) as [[f' c'] ev'] eqn:E'.
    intros E. injection E as -> -> <-.
    rewrite (IH env ci c1 ev' E').
    destruct (run_loop ROWS COLS env c1) as [[f2 c2] ev2].
    now rewrite <- !app_assoc.
Qed.

(** The iteration in which the transport rejects the head of the queue. *)
Lemma run_iteration_exec_failure c0 N nxt dev r :
  exit_flag c0 = false ->
  instr c0 = N :: nxt ->
  libmk_exec_instruction ROWS COLS (device c0) (Some N) = (dev, r) ->
  r <> LIBMK_SUCCESS ->
  run_iteration ROWS COLS c0
  = (Break, libmk_set_controller_error (set_device c0 dev) r, []).
Proof.
  intros Hx Hq He Hr. unfold run_iteration.
  rewrite Hx, Hq, He.
  apply result_eqb_neq in Hr. now rewrite Hr.
Qed.

(** The whole run when iteration [length pre] meets a rejected head. *)
Lemma run_controller_exec_failure pre ops rest c c1 ev1 c0 ev0 N nxt dev r :
  run_loop ROWS COLS pre c = (Continue, c1, ev1) ->
  callers c1 ops = (c0, ev0) ->
  exit_flag c0 = false ->
  instr c0 = N :: nxt ->
  libmk_exec_instruction ROWS COLS (device c0) (Some N) = (dev, r) ->
  r <> LIBMK_SUCCESS ->
  libmk_run_controller ROWS COLS (pre ++ ops :: rest) c
  = Some (run_shutdown (libmk_set_controller_error (set_device c0 dev) r),
          ev1 ++ ev0 ++ []).
Proof.
  intros Hpre Hops Hx Hq He Hr.
  unfold libmk_run_controller.
  rewrite (run_loop_app pre (ops :: rest) c c1 ev1 Hpre).
  simpl. rewrite Hops.
  rewrite (run_iteration_exec_failure c0 N nxt dev r Hx Hq He Hr).
  reflexivity.
Qed.

Lemma set_controller_error_fields c e :
  device (libmk_set_controller_error c e) = device c /\
  instr (libmk_set_controller_error c e) = instr c /\
  error (libmk_set_controller_error c e)
  = (if result_eqb (error c) LIBMK_SUCCESS then e else error c).
Proof.
  unfold libmk_set_controller_error.
  destruct (result_eqb (error c) LIBMK_SUCCESS); repeat split.
Qed.

(** Once an error is recorded, the shutdown keeps it. *)
Lemma run_shutdown_fields c :
  calls (device (run_shutdown c))
  = calls (device c) ++ [Call_disable_control] /\
  instr (run_shutdown c) = instr c /\
  (error c <> LIBMK_SUCCESS -> error (run_shutdown c) = error c).
Proof.
  unfold run_shutdown, libmk_disable_control, transport.
  destruct (negb (result_eqb _ LIBMK_SUCCESS)).
  - destruct (set_controller_error_fields
                (set_device c {| reply := reply (device c);
                                 calls := calls (device c)
                                          ++ [Call_disable_control] |})
                (reply (device c) (calls (device c)) Call_disable_control))
      as (Hd & Hi & He).
    rewrite Hd, Hi, He. simpl. repeat split.
    intros Hne. apply result_eqb_neq in Hne. now rewrite Hne.
  - simpl. repeat split.
Qed.

(** The controller the worker leaves behind after a rejected head. *)
Lemma exec_failure_outcome c0 N nxt dev r :
  instr c0 = N :: nxt ->
  libmk_exec_instruction ROWS COLS (device c0) (Some N) = (dev, r) ->
  r <> LIBMK_SUCCESS ->
  let c' := run_shutdown (libmk_set_controller_error (set_device c0 dev) r) in
  calls (device c')
  = calls (device c0) ++ [exec_call ROWS COLS N; Call_disable_control] /\
  instr c' = N :: nxt /\
  error c' = (if result_eqb (error c0) LIBMK_SUCCESS then r else error c0).
Proof.
  intros Hq He Hr c'. subst c'.
  rewrite exec_instruction_call in He. unfold transport in He.
  injection He as <- <-.
  set (dev := {| reply := reply (device c0);
                 calls := calls (device c0) ++ [exec_call ROWS COLS N] |}).
  set (r := reply (device c0) (calls (device c0)) (exec_call ROWS COLS N))
    in *.
  destruct (set_controller_error_fields (set_device c0 dev) r)
    as (Hd & Hi & Herr).
  destruct (run_shutdown_fields
              (libmk_set_controller_error (set_device c0 dev) r))
    as (Sd & Si & Serr).
  rewrite Sd, Si, Hd, Hi. simpl.
  rewrite <- app_assoc. simpl. repeat split; [assumption |].
  rewrite Serr; rewrite Herr; simpl.
  - reflexivity.
  - destruct (result_eqb (error c0) LIBMK_SUCCESS) eqn:E; [assumption |].
    now apply result_eqb_neq.
Qed.

(** C5: the error slot keeps the first error.  Setting an error changes
    nothing when one is recorded, and records it when none is; so in every
    run in which the execution error [r] is recorded (the slot was empty
    when the transport rejected the head) and the transport then answers
    the disable request with an error [d], get_error returns [r]. *)
Theorem C5_first_error_wins :
  (forall c e,
      error c <> LIBMK_SUCCESS -> libmk_set_controller_error c e = c) /\
  (forall c e,
      error c = LIBMK_SUCCESS ->
      libmk_get_controller_error (libmk_set_controller_error c e) = e) /\
  (forall pre ops rest c c1 ev1 c0 ev0 N nxt dev r dev' d,
      run_loop ROWS COLS pre c = (Continue, c1, ev1) ->
      callers c1 ops = (c0, ev0) ->
      exit_flag c0 = false ->
      instr c0 = N :: nxt ->
      libmk_exec_instruction ROWS COLS (device c0) (Some N) = (dev, r) ->
      r <> LIBMK_SUCCESS ->
      error c0 = LIBMK_SUCCESS ->
      libmk_disable_control dev = (dev', d) ->
      d <> LIBMK_SUCCESS ->
      exists c' ev,
        libmk_run_controller ROWS COLS (pre ++ ops :: rest) c = Some (c', ev) /\
        libmk_get_controller_error c' = r).
Proof.
  split; [| split].
  - intros c e Hne. unfold libmk_set_controller_error.
    apply result_eqb_neq in Hne. now rewrite Hne.
  - intros c e He. unfold libmk_set_controller_error, libmk_get_controller_error.
    rewrite He. reflexivity.
  - intros pre ops rest c c1 ev1 c0 ev0 N nxt dev r dev' d
           Hpre Hops Hx Hq He Hr Hc0 _ _.
    eexists. eexists. split.
    + exact (run_controller_exec_failure pre ops rest c c1 ev1 c0 ev0
               N nxt dev r Hpre Hops Hx Hq He Hr).
    + destruct (exec_failure_outcome c0 N nxt dev r Hq He Hr) as (_ & _ & E).
      unfold libmk_get_controller_error. rewrite E, Hc0. reflexivity.
Qed.

(** C6 (amended): when the worker reaches an instruction [N] at the head of
    the queue and the transport rejects it with [r], the worker returns
    whatever the other threads do afterwards; the transport has received,
    after the call for [N], the disable request and nothing else; [N] and
    the instructions behind it are still queued; and get_error returns [r]
    if no error was recorded before, the error recorded before otherwise. *)
Theorem C6_exec_failure_stops_worker
        pre ops rest c c1 ev1 c0 ev0 N nxt dev r :
  run_loop ROWS COLS pre c = (Continue, c1, ev1) ->
  callers c1 ops = (c0, ev0) ->
  exit_flag c0 = false ->
  instr c0 = N :: nxt ->
  libmk_exec_instruction ROWS COLS (device c0) (Some N) = (dev, r) ->
  r <> LIBMK_SUCCESS ->
  exists c' ev,
    libmk_run_controller ROWS COLS (pre ++ ops :: rest) c = Some (c', ev) /\
    calls (device c')
    = calls (device c0) ++ [exec_call ROWS COLS N; Call_disable_control] /\
    instr c' = N :: nxt /\
    libmk_get_controller_error c'
    = (if result_eqb (error c0) LIBMK_SUCCESS then r else error c0).
Proof.
  intros Hpre Hops Hx Hq He Hr.
  eexists. eexists. split.
  - exact (run_controller_exec_failure pre ops rest c c1 ev1 c0 ev0
             N nxt dev r Hpre Hops Hx Hq He Hr).
  - exact (exec_failure_outcome c0 N nxt dev r Hq He Hr).
Qed.

End Worker.

Lemma C5_first_error_wins_witness :
  let c := controller_at_rest
             (handle_rejecting (LIBMK_ERR_TRANSPORT 2) (LIBMK_ERR_TRANSPORT 4))
             [] in
  exists c' ev,
    libmk_run_controller 7 24 ([[]] ++ [Op_sched (red 0) []] :: [[Op_stop]]) c
    = Some (c', ev) /\
    libmk_get_controller_error c' = LIBMK_ERR_TRANSPORT 2.
Proof.
  intro c.
  destruct (C5_first_error_wins 7 24) as (_ & _ & H).
  refine (H [[]] [Op_sched (red 0) []] [[Op_stop]] c c [] _ [] (red 1) []
            _ (LIBMK_ERR_TRANSPORT 2) _ (LIBMK_ERR_TRANSPORT 4)
            _ _ _ _ _ _ _ _ _);
    try reflexivity; discriminate.
Defined.

Lemma C6_exec_failure_stops_worker_witness :
  let c := controller_at_rest
             (handle_rejecting (LIBMK_ERR_TRANSPORT 2) (LIBMK_ERR_TRANSPORT 4))
             [] in
  exists c' ev,
    libmk_run_controller 7 24
      ([[]] ++ [Op_sched (red 0) []; Op_sched (red 0) []] :: [[Op_stop]]) c
    = Some (c', ev) /\
    calls (device c')
    = [] ++ [exec_call 7 24 (red 1); Call_disable_control] /\
    instr c' = [red 1; red 2] /\
    libmk_get_controller_error c' = LIBMK_ERR_TRANSPORT 2.
Proof.
  intro c.
  refine (C6_exec_failure_stops_worker 7 24
            [[]] [Op_sched (red 0) []; Op_sched (red 0) []] [[Op_stop]]
            c c [] (set_instr c [red 1; red 2]) [] (red 1) [red 2]
            _ (LIBMK_ERR_TRANSPORT 2) _ _ _ _ _ _);
    try reflexivity; discriminate.
Defined.

(** C6 as stated fails: the controller holds the error 1 of an earlier
    run; the transport rejects the head of the queue with the error 2, the
    worker returns, and get_error returns 1, not the failure 2. *)
Lemma C6_counterexample :
  exists dev c' ev,
    libmk_exec_instruction 7 24 (device failed_before_controller)
                           (Some (red 1))
    = (dev, LIBMK_ERR_TRANSPORT 2) /\
    libmk_run_controller 7 24 [[]] failed_before_controller = Some (c', ev) /\
    libmk_get_controller_error c' = LIBMK_ERR_TRANSPORT 1 /\
    libmk_get_controller_error c' <> LIBMK_ERR_TRANSPORT 2.
Proof.
  do 3 eexists. split; [reflexivity |]. split; [reflexivity |].
  split; [reflexivity | discriminate].
Qed.

(** C1: neither start nor the worker writes the state field.  A controller
    at rest whose transport accepts the enable request is started
    successfully and stays Inactive; a controller marked Active whose
    worker leaves the loop on the exit request stays Active. *)
Theorem C1_state_is_never_written :
  (exists c',
      libmk_start_controller (controller_at_rest handle_ok [])
      = (LIBMK_SUCCESS, c', true) /\
      libmk_get_controller_state c' = LIBMK_STATE_INACTIVE) /\
  (exists c' ev,
      libmk_run_controller 7 24 [[]] stopping_controller = Some (c', ev) /\
      libmk_get_controller_state c' = LIBMK_STATE_ACTIVE).
Proof.
  split.
  - eexists. split; reflexivity.
  - eexists. eexists. split; reflexivity.
Qed.

(** *** The instruction queue *)

Lemma set_instr_same c : set_instr c (instr c) = c.
Proof. destruct c; reflexivity. Qed.

(** The walk reaches the last node of the chain and links [i] behind it. *)
Lemma sched_walk_tail i i_next : forall t_next t q tl,
  t :: t_next = q ++ [tl] ->
  sched_walk t t_next i i_next
  = q ++ tl :: set_id i (uint (id tl + 1)) :: i_next.
Proof.
  induction t_next as [| t' rest IH]; intros t q tl E; simpl.
  - destruct q as [| a [| b q]]; simpl in E.
    + injection E as ->. reflexivity.
    + discriminate.
    + discriminate.
  - destruct q as [| a q]; simpl in E.
    + discriminate.
    + injection E as -> E. simpl. f_equal. now apply IH.
Qed.

Lemma uint_small z : 0 <= z < UINT_MODULUS -> uint z = z.
Proof. intros H. unfold uint. now apply Z.mod_small. Qed.

(** C7 (amended): enqueue always returns success and changes the queue
    only.  On an empty queue the instruction becomes the head with id 1;
    otherwise it is linked behind the current tail, whatever was cancelled
    before, with the id of the tail plus 1 reduced modulo 2^32, which is the
    id of the tail plus 1 unless the tail holds the largest unsigned int. *)
Theorem C7_sched_instruction c i i_next :
  fst (libmk_sched_instruction c i i_next) = LIBMK_SUCCESS /\
  (instr c = [] ->
   libmk_sched_instruction c i i_next
   = (LIBMK_SUCCESS, set_instr c (set_id i 1 :: i_next))) /\
  (forall q tl,
      instr c = q ++ [tl] ->
      libmk_sched_instruction c i i_next
      = (LIBMK_SUCCESS,
         set_instr c (q ++ tl :: set_id i ((id tl + 1) mod 2 ^ 32) :: i_next))
      /\ (0 <= id tl < 2 ^ 32 - 1 ->
          libmk_sched_instruction c i i_next
          = (LIBMK_SUCCESS,
             set_instr c (q ++ tl :: set_id i (id tl + 1) :: i_next)))).
Proof.
  unfold libmk_sched_instruction. split; [| split].
  - destruct (instr c); reflexivity.
  - intros ->. reflexivity.
  - intros q tl E.
    assert (G : match instr c with
                | [] => (LIBMK_SUCCESS, set_instr c (set_id i 1 :: i_next))
                | t :: t_next =>
                  (LIBMK_SUCCESS, set_instr c (sched_walk t t_next i i_next))
                end
                = (LIBMK_SUCCESS,
                   set_instr c
                     (q ++ tl :: set_id i (uint (id tl + 1)) :: i_next))).
    { destruct (instr c) as [| t t_next].
      - destruct q; discriminate.
      - now rewrite (sched_walk_tail i i_next t_next t q tl E). }
    split.
    + exact G.
    + intros Hid. rewrite G. rewrite uint_small; [reflexivity |].
      unfold UINT_MODULUS. lia.
Qed.

Lemma C7_sched_instruction_witness :
  let c := controller_at_rest handle_ok [red 4; red 7] in
  libmk_sched_instruction c (red 0) []
  = (LIBMK_SUCCESS, set_instr c ([red 4] ++ [red 7; set_id (red 0) (7 + 1)])).
Proof.
  intro c.
  destruct (C7_sched_instruction c (red 0) []) as (_ & _ & H).
  destruct (H [red 4] (red 7) eq_refl) as [_ H'].
  apply H'. simpl. lia.
Defined.

(** C7 as stated fails: behind a tail that holds the largest unsigned int
    the new instruction gets the id 0, not the id of the tail plus 1. *)
Lemma C7_counterexample :
  exists n,
    instr (snd (libmk_sched_instruction
                  (controller_at_rest handle_ok [red 4294967295])
                  (red 0) []))
    = [red 4294967295; n] /\
    id n = 0 /\
    id n <> id (red 4294967295) + 1.
Proof.
  eexists. split; [reflexivity |]. split; [reflexivity | discriminate].
Qed.

(** The scan leaves a chain alone when no node carries the id. *)
Lemma cancel_scan_absent n : forall q,
  (forall x, In x q -> id x <> n) -> cancel_scan q n = (q, []).
Proof.
  induction q as [| x q IH]; intros H; simpl; [reflexivity |].
  assert (Hx : id x <> n) by (apply H; now left).
  apply Z.eqb_neq in Hx. rewrite Hx.
  rewrite IH; [reflexivity |].
  intros y Hy. apply H. now right.
Qed.

(** The scan unlinks the first node that carries the id and frees it. *)
Lemma cancel_scan_present n x post : forall pre,
  (forall y, In y pre -> id y <> n) ->
  id x = n ->
  cancel_scan (pre ++ x :: post) n
  = (pre ++ post, libmk_free_instruction x).
Proof.
  induction pre as [| y pre IH]; intros H Hx; simpl.
  - apply Z.eqb_eq in Hx. now rewrite Hx.
  - assert (Hy : id y <> n) by (apply H; now left).
    apply Z.eqb_neq in Hy. rewrite Hy.
    rewrite IH; [reflexivity | | assumption].
    intros z Hz. apply H. now right.
Qed.

(** C9: cancel always returns success.  With an id that no queued
    instruction carries, the controller is unchanged and nothing is freed;
    otherwise the first instruction carrying the id is taken out of the
    chain, the instructions before and behind it keep their order, and its
    node and its payload, if it has one, are freed. *)
Theorem C9_cancel_instruction c n :
  ((forall x, In x (instr c) -> id x <> n) ->
   libmk_cancel_instruction c n = (LIBMK_SUCCESS, c, [])) /\
  (forall pre x post,
      instr c = pre ++ x :: post ->
      (forall y, In y pre -> id y <> n) ->
      id x = n ->
      exists ev,
        libmk_cancel_instruction c n
        = (LIBMK_SUCCESS, set_instr c (pre ++ post), ev) /\
        ev = libmk_free_instruction x /\
        In (Free (Blk_instruction x)) ev /\
        (forall buf, colors x = Some buf -> In (Free (Blk_colors buf)) ev)).
Proof.
  unfold libmk_cancel_instruction. split.
  - intros H. rewrite (cancel_scan_absent n (instr c) H).
    now rewrite set_instr_same.
  - intros pre x post E H Hx. rewrite E.
    rewrite (cancel_scan_present n x post pre H Hx).
    eexists. split; [reflexivity |]. split; [reflexivity |].
    unfold libmk_free_instruction. split.
    + destruct (colors x); simpl; auto.
    + intros buf ->. simpl. auto.
Qed.

Lemma C9_cancel_instruction_witness :
  let c := controller_at_rest handle_ok [red 1; red 2; red 3] in
  libmk_cancel_instruction c 5 = (LIBMK_SUCCESS, c, []) /\
  exists ev,
    libmk_cancel_instruction c 2
    = (LIBMK_SUCCESS, set_instr c ([red 1] ++ [red 3]), ev) /\
    ev = libmk_free_instruction (red 2) /\
    In (Free (Blk_instruction (red 2))) ev /\
    (forall buf, colors (red 2) = Some buf -> In (Free (Blk_colors buf)) ev).
Proof.
  intro c. split.
  - apply (C9_cancel_instruction c 5).
    simpl. intros x [<- | [<- | [<- | []]]]; discriminate.
  - apply (proj2 (C9_cancel_instruction c 2) [red 1] (red 2) [red 3]).
    + reflexivity.
    + simpl. intros y [<- | []]. discriminate.
    + reflexivity.
Defined.

(** *** Join *)

Section Join.

Variable CLOCKS_PER_SEC : positive.

Lemma deadline_passed_true now t timeout :
  (timeout < elapsed CLOCKS_PER_SEC now t)%Q ->
  deadline_passed CLOCKS_PER_SEC now t timeout = true.
Proof.
  intros H. unfold deadline_passed.
  destruct (Qle_bool (elapsed CLOCKS_PER_SEC now t) timeout) eqn:E;
    [| reflexivity].
  apply Qle_bool_iff in E. exfalso. exact (Qlt_not_le _ _ H E).
Qed.

Lemma deadline_passed_false now t timeout :
  (elapsed CLOCKS_PER_SEC now t <= timeout)%Q ->
  deadline_passed CLOCKS_PER_SEC now t timeout = false.
Proof.
  intros H. unfold deadline_passed.
  apply Qle_bool_iff in H. now rewrite H.
Qed.


End Join.


(** *** Instructions with a full grid *)

(** Executing an instruction that has a payload hands that payload to the
    transport as it is. *)
Lemma exec_instruction_payload rows cols h i buf :
  colors i = Some buf ->
  libmk_exec_instruction rows cols h (Some i) = libmk_set_all_led_color h buf.
Proof. intros E. unfold libmk_exec_instruction. now rewrite E. Qed.

(** The payload of a new full-grid instruction is what the three loops make
    of the fresh buffer. *)
Lemma create_instruction_all_payload rows cols block block_next buf c :
  colors (fst (fst (libmk_create_instruction_all rows cols block block_next
                                                 buf c)))
  = Some (copy_grid rows cols c buf).
Proof. reflexivity. Qed.

(** C3: the payload of a full-grid instruction is not a copy of the grid.
    For 7 rows of 24 leds and a grid whose first led is red and whose other
    leds are dark, byte 0 of the payload is 0 where the grid has 255 (the
    last led of the row has overwritten the first), and byte 3 is what the
    fresh buffer held; executing the instruction hands this payload to the
    transport. *)
Theorem C3_full_grid_is_not_copied :
  let '(i, _, _) :=
    libmk_create_instruction_all 7 24 (red 0) [] stale_buffer first_led_red in
  exists payload,
    colors i = Some payload /\
    nth 0 first_led_red 0 = 255 /\ nth 0 payload 0 = 0 /\
    nth 3 first_led_red 0 = 0 /\ nth 3 payload 0 = 170 /\
    payload <> first_led_red /\
    libmk_exec_instruction 7 24 handle_ok (Some i)
    = libmk_set_all_led_color handle_ok payload.
Proof.
  cbv beta iota delta [libmk_create_instruction_all libmk_create_instruction].
  eexists. split; [reflexivity |].
  split; [reflexivity |]. split; [vm_compute; reflexivity |].
  split; [reflexivity |]. split; [vm_compute; reflexivity |].
  split.
  - intros E. apply (f_equal (fun l => nth 0 l 0)) in E.
    vm_compute in E. discriminate E.
  - reflexivity.
Qed.

(** ** Further properties of the worker *)

(** The other threads never touch the transport or the error slot, and
    never withdraw an exit request. *)
Lemma caller_keeps c op :
  device (fst (caller c op)) = device c /\
  error (fst (caller c op)) = error c /\
  (exit_flag c = true -> exit_flag (fst (caller c op)) = true).
Proof.
  destruct op as [i i_next | n |]; simpl.
  - unfold libmk_sched_instruction. destruct (instr c); simpl; auto.
  - unfold libmk_cancel_instruction.
    destruct (cancel_scan (instr c) n); simpl; auto.
  - auto.
Qed.

Lemma callers_keeps ops : forall c,
  device (fst (callers c ops)) = device c /\
  error (fst (callers c ops)) = error c /\
  (exit_flag c = true -> exit_flag (fst (callers c ops)) = true).
Proof.
  induction ops as [| op ops IH]; intros c; simpl; [auto |].
  destruct (caller_keeps c op) as (Hd & He & Hx).
  destruct (caller c op) as [c1 ev1]. simpl in Hd, He, Hx.
  destruct (IH c1) as (Hd' & He' & Hx').
  destruct (callers c1 ops) as [c2 ev2]. simpl in *.
  repeat split; try congruence. auto.
Qed.

Section WorkerMore.

Variables ROWS COLS : nat.

(** A worker that finds the exit request set leaves at once. *)
Lemma run_controller_exit_requested ops rest c :
  exit_flag c = true ->
  exists c' ev,
    libmk_run_controller ROWS COLS (ops :: rest) c = Some (c', ev) /\
    calls (device c') = calls (device c) ++ [Call_disable_control] /\
    instr c' = instr (fst (callers c ops)).
Proof.
  intros Hx. unfold libmk_run_controller. simpl.
  destruct (callers_keeps ops c) as (Hd & _ & Hx').
  destruct (callers c ops) as [c0 ev0]. simpl in Hd, Hx' |- *.
  unfold run_iteration. rewrite (Hx' Hx).
  eexists. eexists. split; [reflexivity |].
  destruct (run_shutdown_fields c0) as (Sd & Si & _).
  rewrite Sd, Si, Hd. split; reflexivity.
Qed.

(** X1: once stop has been called the worker returns at its next test of
    the exit flag, whatever the other threads do in between and whatever is
    queued: the only call the transport receives is the disable request,
    and the queue is left as the other threads made it. *)
Theorem stop_ends_worker ops rest c :
  exists c' ev,
    libmk_run_controller ROWS COLS (ops :: rest) (libmk_stop_controller c)
    = Some (c', ev) /\
    calls (device c') = calls (device c) ++ [Call_disable_control] /\
    instr c' = instr (fst (callers (libmk_stop_controller c) ops)).
Proof.
  exact (run_controller_exit_requested ops rest (libmk_stop_controller c)
           eq_refl).
Qed.

(** X2: start does not withdraw an exit request.  After stop, whatever
    start returns, the controller it leaves has the exit flag set, and
    [libmk_run_controller] applied to that controller returns at its first
    test of the flag: the transport has then received the enable and the
    disable request and no led update. *)
Theorem exit_flag_survives_start ops rest c :
  let c1 := snd (fst (libmk_start_controller (libmk_stop_controller c))) in
  exit_flag c1 = true /\
  exists c' ev,
    libmk_run_controller ROWS COLS (ops :: rest) c1 = Some (c', ev) /\
    calls (device c')
    = calls (device c) ++ [Call_enable_control; Call_disable_control].
Proof.
  intro c1.
  assert (E : c1 = set_device (libmk_stop_controller c)
                              {| reply := reply (device c);
                                 calls := calls (device c)
                                          ++ [Call_enable_control] |}).
  { subst c1.
    unfold libmk_start_controller, libmk_enable_control, transport. simpl.
    destruct (negb (result_eqb _ LIBMK_SUCCESS)); reflexivity. }
  assert (Hx : exit_flag c1 = true) by (rewrite E; reflexivity).
  split; [exact Hx |].
  destruct (run_controller_exit_requested ops rest c1 Hx)
    as (c' & ev & Hrun & Hcalls & _).
  exists c', ev. split; [exact Hrun |].
  rewrite Hcalls, E. simpl. now rewrite <- app_assoc.
Qed.

(** X3: with an empty queue, no exit request and no other thread at work,
    the worker goes round its loop without end: after any number of
    iterations it has not returned, and the controller, transport included,
    is as it was. *)
Theorem idle_worker_spins n c :
  instr c = [] ->
  exit_flag c = false ->
  run_loop ROWS COLS (repeat [] n) c = (Continue, c, []) /\
  libmk_run_controller ROWS COLS (repeat [] n) c = None.
Proof.
  intros Hq Hx.
  assert (H : run_loop ROWS COLS (repeat [] n) c = (Continue, c, [])).
  { induction n as [| n IH]; simpl; [reflexivity |].
    unfold run_iteration. rewrite Hx, Hq. now rewrite IH. }
  split; [exact H |]. unfold libmk_run_controller. now rewrite H.
Qed.

Lemma exec_call_is_led_update i :
  exists leds, exec_call ROWS COLS i = Call_set_all_led_color leds.
Proof. unfold exec_call. destruct (colors i); eexists; reflexivity. Qed.

(** One iteration on an accepting transport executes the head, unlinks it
    and frees it. *)
Lemma run_iteration_accepted c x nxt :
  accepts_leds (device c) ->
  exit_flag c = false ->
  instr c = x :: nxt ->
  run_iteration ROWS COLS c
  = (Continue,
     set_instr
       (set_device c {| reply := reply (device c);
                        calls := calls (device c) ++ [exec_call ROWS COLS x] |})
       nxt,
     libmk_free_instruction x).
Proof.
  intros Hacc Hx Hq. unfold run_iteration. rewrite Hx, Hq.
  rewrite exec_instruction_call. unfold transport.
  destruct (exec_call_is_led_update x) as [leds ->].
  rewrite (Hacc (calls (device c)) leds). reflexivity.
Qed.

Lemma run_loop_fifo : forall q c,
  instr c = q ->
  accepts_leds (device c) ->
  exit_flag c = false ->
  run_loop ROWS COLS (repeat [] (length q)) c
  = (Continue,
     set_instr
       (set_device c {| reply := reply (device c);
                        calls := calls (device c)
                                 ++ map (exec_call ROWS COLS) q |})
       [],
     flat_map libmk_free_instruction q).
Proof.
  induction q as [| x q IH]; intros c Hq Hacc Hx; simpl.
  - rewrite app_nil_r. destruct c as [[rp cl] qi xf st er].
    simpl in Hq. subst qi. reflexivity.
  - rewrite (run_iteration_accepted c x q Hacc Hx Hq).
    match goal with
    | |- context [run_loop _ _ _ ?c1] => rewrite (IH c1 eq_refl Hacc Hx)
    end.
    simpl. rewrite <- app_assoc. reflexivity.
Qed.

(** X4: on a transport that accepts every led update, with no exit request
    and no other thread at work, as many iterations as there are queued
    instructions execute all of them once, in the order of the queue; each
    is freed after its execution, the queue ends empty, and the worker is
    still in its loop. *)
Theorem worker_fifo c :
  accepts_leds (device c) ->
  exit_flag c = false ->
  run_loop ROWS COLS (repeat [] (length (instr c))) c
  = (Continue,
     set_instr
       (set_device c {| reply := reply (device c);
                        calls := calls (device c)
                                 ++ map (exec_call ROWS COLS) (instr c) |})
       [],
     flat_map libmk_free_instruction (instr c)).
Proof. intros Hacc Hx. now apply run_loop_fifo. Qed.

(** The calls an iteration adds are led updates. *)
Lemma run_iteration_calls c :
  exists leds,
    calls (device (snd (fst (run_iteration ROWS COLS c))))
    = calls (device c) ++ map Call_set_all_led_color leds.
Proof.
  unfold run_iteration.
  destruct (exit_flag c).
  - exists []. simpl. now rewrite app_nil_r.
  - destruct (instr c) as [| old nxt].
    + exists []. simpl. now rewrite app_nil_r.
    + rewrite exec_instruction_call. unfold transport.
      destruct (exec_call_is_led_update old) as [leds ->].
      exists [leds].
      destruct (negb (result_eqb _ LIBMK_SUCCESS)); simpl; [| reflexivity].
      match goal with
      | |- context [libmk_set_controller_error ?c ?e] =>
        destruct (set_controller_error_fields c e) as (Hd & _ & _)
      end.
      rewrite Hd. reflexivity.
Qed.

Lemma run_loop_calls env : forall c,
  exists leds,
    calls (device (snd (fst (run_loop ROWS COLS env c))))
    = calls (device c) ++ map Call_set_all_led_color leds.
Proof.
  induction env as [| ops env IH]; intros c; simpl.
  - exists []. simpl. now rewrite app_nil_r.
  - destruct (callers_keeps ops c) as (Hd & _ & _).
    destruct (callers c ops) as [c0 ev0]. simpl in Hd.
    destruct (run_iteration_calls c0) as [l1 H1].
    destruct (run_iteration ROWS COLS c0) as [[f c1] ev1]. simpl in H1.
    destruct f.
    + destruct (IH c1) as [l2 H2].
      destruct (run_loop ROWS COLS env c1) as [[f2 c2] ev2]. simpl in *.
      exists (l1 ++ l2). rewrite H2, H1, Hd, map_app.
      now rewrite app_assoc.
    + simpl. exists l1. now rewrite H1, Hd.
Qed.

(** X5: whenever the worker returns, the last call it has made to the
    transport is the disable request, it has made no other disable request,
    and it has never asked for control mode. *)
Theorem worker_disables_once env c c' ev :
  libmk_run_controller ROWS COLS env c = Some (c', ev) ->
  exists made,
    calls (device c')
    = calls (device c) ++ made ++ [Call_disable_control] /\
    Forall (fun k => k <> Call_enable_control /\ k <> Call_disable_control)
           made.
Proof.
  unfold libmk_run_controller.
  destruct (run_loop_calls env c) as [leds H].
  destruct (run_loop ROWS COLS env c) as [[f c1] ev1]. simpl in H.
  destruct f; [discriminate |].
  intros E. injection E as <- _.
  exists (map Call_set_all_led_color leds). split.
  - destruct (run_shutdown_fields c1) as (Sd & _ & _).
    rewrite Sd, H. now rewrite <- app_assoc.
  - apply Forall_forall. intros k Hk. apply in_map_iff in Hk.
    destruct Hk as (l & <- & _). split; discriminate.
Qed.

Lemma run_iteration_error c :
  error c <> LIBMK_SUCCESS ->
  error (snd (fst (run_iteration ROWS COLS c))) = error c.
Proof.
  intros Hne. unfold run_iteration.
  destruct (exit_flag c); [reflexivity |].
  destruct (instr c) as [| old nxt]; [reflexivity |].
  destruct (libmk_exec_instruction ROWS COLS (device c) (Some old)) as [dev r].
  destruct (negb (result_eqb r LIBMK_SUCCESS)); simpl; [| reflexivity].
  destruct (set_controller_error_fields (set_device c dev) r) as (_ & _ & E).
  rewrite E. simpl. apply result_eqb_neq in Hne. now rewrite Hne.
Qed.

Lemma run_loop_error env : forall c,
  error c <> LIBMK_SUCCESS ->
  error (snd (fst (run_loop ROWS COLS env c))) = error c.
Proof.
  induction env as [| ops env IH]; intros c Hne; simpl; [reflexivity |].
  destruct (callers_keeps ops c) as (_ & He & _).
  destruct (callers c ops) as [c0 ev0]. simpl in He.
  assert (H0 : error c0 <> LIBMK_SUCCESS) by congruence.
  pose proof (run_iteration_error c0 H0) as H1.
  destruct (run_iteration ROWS COLS c0) as [[f c1] ev1]. simpl in H1.
  destruct f.
  - assert (H1' : error c1 <> LIBMK_SUCCESS) by congruence.
    pose proof (IH c1 H1') as H2.
    destruct (run_loop ROWS COLS env c1) as [[f2 c2] ev2]. simpl in *.
    congruence.
  - simpl. congruence.
Qed.

(** X6: an error, once recorded, is never cleared: it survives a start,
    every enqueue, cancel and stop, and a whole run of the worker, whatever
    the transport answers in that run. *)
Theorem error_is_never_cleared c :
  error c <> LIBMK_SUCCESS ->
  libmk_get_controller_error (snd (fst (libmk_start_controller c)))
  = error c /\
  (forall ops, libmk_get_controller_error (fst (callers c ops)) = error c) /\
  (forall env c' ev,
      libmk_run_controller ROWS COLS env c = Some (c', ev) ->
      libmk_get_controller_error c' = error c).
Proof.
  intros Hne. unfold libmk_get_controller_error. split; [| split].
  - unfold libmk_start_controller.
    destruct (libmk_enable_control (device c)) as [dev r].
    destruct (negb (result_eqb r LIBMK_SUCCESS)); reflexivity.
  - intros ops. now destruct (callers_keeps ops c) as (_ & He & _).
  - intros env c' ev. unfold libmk_run_controller.
    pose proof (run_loop_error env c Hne) as H.
    destruct (run_loop ROWS COLS env c) as [[f c1] ev1]. simpl in H.
    destruct f; [discriminate |].
    intros E. injection E as <- _.
    destruct (run_shutdown_fields c1) as (_ & _ & Se).
    rewrite Se; congruence.
Qed.

End WorkerMore.

Lemma accepts_leds_handle_ok : accepts_leds handle_ok.
Proof. intros hist leds. reflexivity. Qed.


Lemma idle_worker_spins_witness :
  run_loop 7 24 (repeat [] 5) (controller_at_rest handle_ok [])
  = (Continue, controller_at_rest handle_ok [], []) /\
  libmk_run_controller 7 24 (repeat [] 5) (controller_at_rest handle_ok [])
  = None.
Proof.
  apply (idle_worker_spins 7 24 5 (controller_at_rest handle_ok []));
    reflexivity.
Defined.

Lemma worker_fifo_witness :
  let c := controller_at_rest handle_ok [red 1; red 2; red 3] in
  run_loop 7 24 (repeat [] (length (instr c))) c
  = (Continue,
     set_instr
       (set_device c {| reply := reply (device c);
                        calls := calls (device c)
                                 ++ map (exec_call 7 24) (instr c) |})
       [],
     flat_map libmk_free_instruction (instr c)).
Proof.
  intro c. apply (worker_fifo 7 24 c).
  - exact accepts_leds_handle_ok.
  - reflexivity.
Defined.

Lemma worker_disables_once_witness :
  exists c' ev made,
    libmk_run_controller 7 24 [[]; [Op_stop]]
      (controller_at_rest handle_ok [red 1]) = Some (c', ev) /\
    calls (device c')
    = calls (device (controller_at_rest handle_ok [red 1]))
      ++ made ++ [Call_disable_control] /\
    Forall (fun k => k <> Call_enable_control /\ k <> Call_disable_control)
           made.
Proof.
  eexists. eexists.
  assert (E : libmk_run_controller 7 24 [[]; [Op_stop]]
                (controller_at_rest handle_ok [red 1])
              = Some (run_shutdown
                        (libmk_stop_controller
                           (set_instr
                              (set_device
                                 (controller_at_rest handle_ok [red 1])
                                 {| reply := reply handle_ok;
                                    calls := [exec_call 7 24 (red 1)] |})
                              [])),
                      libmk_free_instruction (red 1))) by reflexivity.
  destruct (worker_disables_once 7 24 _ _ _ _ E) as (made & H1 & H2).
  exists made. split; [exact E |]. split; [exact H1 | exact H2].
Defined.

Lemma error_is_never_cleared_witness :
  libmk_get_controller_error
    (snd (fst (libmk_start_controller failed_before_controller)))
  = error failed_before_controller /\
  (forall ops,
      libmk_get_controller_error (fst (callers failed_before_controller ops))
      = error failed_before_controller) /\
  (forall env c' ev,
      libmk_run_controller 7 24 env failed_before_controller = Some (c', ev) ->
      libmk_get_controller_error c' = error failed_before_controller).
Proof.
  apply (error_is_never_cleared 7 24 failed_before_controller).
  discriminate.
Defined.

(** ** Further properties of the queue *)

Lemma last_behind {A} : forall (rest : list A) (a t : A),
  last (a :: rest) t = last rest a.
Proof.
  induction rest as [| b rest IH]; intros a t; [reflexivity |].
  change (last (a :: b :: rest) t) with (last (b :: rest) t).
  rewrite (IH b t). symmetry. apply IH.
Qed.

Lemma last_In {A} : forall (rest : list A) (t : A),
  In (last rest t) (t :: rest).
Proof.
  induction rest as [| a rest IH]; intros t; [now left |].
  rewrite last_behind. right. apply IH.
Qed.

(** The queue after an enqueue, empty or not. *)
Lemma sched_walk_last i i_next : forall t_next t,
  sched_walk t t_next i i_next
  = (t :: t_next) ++ set_id i (uint (id (last t_next t) + 1)) :: i_next.
Proof.
  induction t_next as [| t' rest IH]; intros t; [reflexivity |].
  cbn [sched_walk]. rewrite IH, last_behind. reflexivity.
Qed.

Lemma sched_instruction_queue c i i_next :
  libmk_sched_instruction c i i_next
  = (LIBMK_SUCCESS,
     set_instr c (instr c ++ set_id i (next_id (instr c)) :: i_next)).
Proof.
  unfold libmk_sched_instruction, next_id.
  destruct (instr c) as [| t t_next]; [reflexivity |].
  now rewrite sched_walk_last.
Qed.

Lemma set_instr_twice c q q' : set_instr (set_instr c q) q' = set_instr c q'.
Proof. reflexivity. Qed.

(** X7: enqueue followed by cancel of the id just assigned undoes the
    enqueue, when no instruction already queued carries that id: the new
    node is unlinked and freed and the instructions queued before are as
    they were.  What the [next] field of the new node reached stays linked
    behind them. *)
Theorem sched_then_cancel c i i_next :
  (forall x, In x (instr c) -> id x <> next_id (instr c)) ->
  libmk_cancel_instruction (snd (libmk_sched_instruction c i i_next))
                           (next_id (instr c))
  = (LIBMK_SUCCESS, set_instr c (instr c ++ i_next),
     libmk_free_instruction (set_id i (next_id (instr c)))).
Proof.
  intros H. rewrite sched_instruction_queue.
  unfold libmk_cancel_instruction. cbn [snd instr set_instr].
  rewrite (cancel_scan_present (next_id (instr c))
             (set_id i (next_id (instr c))) i_next (instr c) H eq_refl).
  reflexivity.
Qed.

Lemma sched_then_cancel_witness :
  let c := controller_at_rest handle_ok [red 4; red 7] in
  libmk_cancel_instruction (snd (libmk_sched_instruction c (red 0) [])) 8
  = (LIBMK_SUCCESS, set_instr c ([red 4; red 7] ++ []),
     libmk_free_instruction (set_id (red 0) 8)).
Proof.
  intro c. apply (sched_then_cancel c (red 0) []).
  simpl. intros x [<- | [<- | []]]; discriminate.
Defined.

Lemma ids_increasing_app q z :
  ids_increasing (q ++ [z]) <->
  ids_increasing q /\ Forall (fun y => id y < id z) q.
Proof.
  induction q as [| x q IH]; simpl.
  - split; [intros _ | intros _]; repeat split; constructor.
  - rewrite IH, Forall_app. split.
    + intros ((Hq & Hz) & Hi & Hf). inversion Hz; subst.
      repeat split; auto.
    + intros ((Hq & Hi) & Hf). inversion Hf; subst.
      repeat split; auto.
Qed.

(** In a queue with increasing ids the tail carries the largest. *)
Lemma ids_increasing_last : forall rest t,
  ids_increasing (t :: rest) ->
  Forall (fun y => id y <= id (last rest t)) (t :: rest).
Proof.
  induction rest as [| t' rest IH]; intros t H.
  - constructor; [simpl; lia | constructor].
  - destruct H as [Hf Hi]. specialize (IH t' Hi).
    rewrite last_behind. constructor; [| exact IH].
    inversion Hf; subst. inversion IH; subst. lia.
Qed.

Lemma cancel_scan_In n : forall q x,
  In x (fst (cancel_scan q n)) -> In x q.
Proof.
  induction q as [| y q IH]; intros x; simpl; [auto |].
  destruct (Z.eqb (id y) n).
  - simpl. auto.
  - destruct (cancel_scan q n) as [q' ev] eqn:E. simpl in *.
    intros [-> | Hin]; auto.
Qed.

Lemma cancel_scan_ids_increasing n : forall q,
  ids_increasing q -> ids_increasing (fst (cancel_scan q n)).
Proof.
  induction q as [| y q IH]; intros H; simpl; [exact I |].
  destruct H as [Hf Hi].
  destruct (Z.eqb (id y) n); [exact Hi |].
  pose proof (cancel_scan_In n q) as Hin. specialize (IH Hi).
  destruct (cancel_scan q n) as [q' ev]. simpl in *.
  split; [| exact IH].
  rewrite Forall_forall in Hf |- *. intros x Hx. apply Hf, Hin, Hx.
Qed.

Section QueueIds.

Variables ROWS COLS : nat.

(** X8: the ids grow strictly along the queue, and every operation keeps
    it so: an enqueue of a single node as long as no id has reached the
    largest unsigned int, every cancel, and every iteration of the
    worker. *)
Theorem queue_ids_stay_increasing c :
  ids_increasing (instr c) ->
  (forall i,
      Forall (fun x => 0 <= id x < 2 ^ 32 - 1) (instr c) ->
      ids_increasing (instr (snd (libmk_sched_instruction c i [])))) /\
  (forall n,
      ids_increasing (instr (snd (fst (libmk_cancel_instruction c n))))) /\
  ids_increasing (instr (snd (fst (run_iteration ROWS COLS c)))).
Proof.
  intros H. split; [| split].
  - intros i Hb. rewrite sched_instruction_queue. cbn [snd instr set_instr].
    apply ids_increasing_app. split; [exact H |].
    unfold next_id. destruct (instr c) as [| t rest]; [constructor |].
    pose proof (ids_increasing_last rest t H) as Hl.
    pose proof (last_In rest t) as Hin.
    rewrite Forall_forall in Hb. specialize (Hb _ Hin).
    rewrite uint_small by (unfold UINT_MODULUS; lia). simpl.
    rewrite Forall_forall in Hl |- *. intros y Hy. specialize (Hl y Hy). lia.
  - intros n. unfold libmk_cancel_instruction.
    pose proof (cancel_scan_ids_increasing n (instr c) H) as Hc.
    destruct (cancel_scan (instr c) n) as [q ev]. exact Hc.
  - unfold run_iteration.
    destruct (exit_flag c); [exact H |].
    destruct (instr c) as [| old nxt] eqn:E; [simpl; now rewrite E |].
    destruct (libmk_exec_instruction ROWS COLS (device c) (Some old))
      as [dev r].
    destruct (negb (result_eqb r LIBMK_SUCCESS)); simpl.
    + destruct (set_controller_error_fields (set_device c dev) r)
        as (_ & Hi & _).
      rewrite Hi. simpl. now rewrite E.
    + exact (proj2 H).
Qed.

End QueueIds.

Lemma queue_ids_stay_increasing_witness :
  let c := controller_at_rest handle_ok [red 4; red 7] in
  (forall i,
      Forall (fun x => 0 <= id x < 2 ^ 32 - 1) (instr c) ->
      ids_increasing (instr (snd (libmk_sched_instruction c i [])))) /\
  (forall n,
      ids_increasing (instr (snd (fst (libmk_cancel_instruction c n))))) /\
  ids_increasing (instr (snd (fst (run_iteration 7 24 c)))).
Proof.
  intro c. apply (queue_ids_stay_increasing 7 24 c).
  simpl. repeat split; repeat constructor.
Defined.

Lemma cancel_scan_removes_id n : forall q,
  ids_increasing q ->
  forall x, In x (fst (cancel_scan q n)) -> id x <> n.
Proof.
  induction q as [| y q IH]; intros H x; simpl; [intros [] |].
  destruct H as [Hf Hi].
  destruct (Z.eqb (id y) n) eqn:E.
  - apply Z.eqb_eq in E. simpl. intros Hx.
    rewrite Forall_forall in Hf. specialize (Hf x Hx). lia.
  - apply Z.eqb_neq in E. specialize (IH Hi).
    destruct (cancel_scan q n) as [q' ev]. simpl in *.
    intros [<- | Hx]; [exact E | now apply IH].
Qed.

(** X9: when the ids grow strictly along the queue, cancel leaves no
    instruction that carries the id, and a second cancel of the same id
    changes nothing and frees nothing. *)
Theorem cancel_removes_id c n :
  ids_increasing (instr c) ->
  let c' := snd (fst (libmk_cancel_instruction c n)) in
  (forall x, In x (instr c') -> id x <> n) /\
  libmk_cancel_instruction c' n = (LIBMK_SUCCESS, c', []).
Proof.
  intros H c'.
  assert (Hno : forall x, In x (instr c') -> id x <> n).
  { subst c'. unfold libmk_cancel_instruction.
    pose proof (cancel_scan_removes_id n (instr c) H) as Hr.
    destruct (cancel_scan (instr c) n) as [q ev]. exact Hr. }
  split; [exact Hno |].
  unfold libmk_cancel_instruction at 1.
  rewrite (cancel_scan_absent n (instr c') Hno).
  now rewrite set_instr_same.
Qed.

Lemma cancel_removes_id_witness :
  let c := controller_at_rest handle_ok [red 1; red 2; red 3] in
  let c' := snd (fst (libmk_cancel_instruction c 2)) in
  (forall x, In x (instr c') -> id x <> 2) /\
  libmk_cancel_instruction c' 2 = (LIBMK_SUCCESS, c', []).
Proof.
  intro c. apply (cancel_removes_id c 2).
  simpl. repeat split; repeat constructor.
Defined.

(** ** Further properties of instructions *)

Lemma flat_map_constant {A} (l : list A) : forall n a,
  flat_map (fun _ : nat => l) (seq a n) = concat (repeat l n).
Proof.
  induction n as [| n IH]; intros a; simpl; [reflexivity |].
  now rewrite IH.
Qed.

Lemma length_concat_repeat {A} (l : list A) : forall n,
  length (concat (repeat l n)) = (n * length l)%nat.
Proof.
  induction n as [| n IH]; simpl; [reflexivity |].
  now rewrite length_app, IH.
Qed.

(** Element [k] of copy [m] in [n] copies of [l] laid end to end. *)
Lemma nth_concat_repeat {A} (l : list A) (d : A) : forall n m k,
  (m < n)%nat -> (k < length l)%nat ->
  nth (m * length l + k) (concat (repeat l n)) d = nth k l d.
Proof.
  induction n as [| n IH]; intros m k Hm Hk; [lia |].
  simpl. destruct m as [| m].
  - simpl. now apply app_nth1.
  - replace (S m * length l + k)%nat
      with (length l + (m * length l + k))%nat by lia.
    rewrite app_nth2_plus. apply IH; lia.
Qed.

Section Instructions.

Variables ROWS COLS : nat.

Lemma uniform_grid_repeat c :
  uniform_grid ROWS COLS c
  = concat (repeat (concat (repeat (map (color_at c) (seq 0 3)) COLS)) ROWS).
Proof.
  unfold uniform_grid.
  rewrite (flat_map_constant _ ROWS 0).
  now rewrite (flat_map_constant _ COLS 0).
Qed.

Lemma uniform_grid_led c row col k :
  (row < ROWS)%nat -> (col < COLS)%nat -> (k < 3)%nat ->
  grid_at COLS (uniform_grid ROWS COLS c) row col k = color_at c k.
Proof.
  intros Hr Hc Hk. unfold grid_at. rewrite uniform_grid_repeat.
  set (px := map (color_at c) (seq 0 3)).
  set (line := concat (repeat px COLS)).
  assert (Lpx : length px = 3%nat) by reflexivity.
  assert (Lline : length line = (COLS * 3)%nat).
  { unfold line. now rewrite length_concat_repeat, Lpx. }
  replace ((row * COLS + col) * 3 + k)%nat
    with (row * length line + (col * length px + k))%nat
    by (rewrite Lline, Lpx; lia).
  rewrite nth_concat_repeat by (rewrite ?Lline, ?Lpx; lia).
  unfold line. rewrite nth_concat_repeat by (rewrite ?Lpx; lia).
  unfold px. destruct k as [| [| [| k]]]; try lia; reflexivity.
Qed.

(** X10: executing an instruction without payload sends the transport one
    led update of [ROWS * COLS * 3] bytes in which every led of every row
    has the three bytes of the instruction's colour. *)
Theorem exec_uniform_color h i :
  colors i = None ->
  exists leds,
    libmk_exec_instruction ROWS COLS h (Some i)
    = libmk_set_all_led_color h leds /\
    length leds = (ROWS * COLS * 3)%nat /\
    (forall row col k,
        (row < ROWS)%nat -> (col < COLS)%nat -> (k < 3)%nat ->
        grid_at COLS leds row col k = color_at (color i) k).
Proof.
  intros Hc. exists (uniform_grid ROWS COLS (color i)). split; [| split].
  - unfold libmk_exec_instruction. now rewrite Hc.
  - rewrite uniform_grid_repeat, !length_concat_repeat. simpl. lia.
  - intros row col k. apply uniform_grid_led.
Qed.

(** X11: a new single-colour instruction carries the colour given, the id
    0 and the duration 0, but its payload pointer and its link are what
    the fresh block held: executing it sends the colour to every led only
    if that pointer happened to be NULL, and sends the buffer it points
    to otherwise. *)
Theorem create_instruction_full_exec block block_next c h :
  let '(i, nxt, ev) := libmk_create_instruction_full block block_next c in
  color i = c /\ id i = 0 /\ duration i = 0 /\
  colors i = colors block /\ nxt = block_next /\
  libmk_exec_instruction ROWS COLS h (Some i)
  = match colors block with
    | Some buf => libmk_set_all_led_color h buf
    | None => libmk_set_all_led_color h (uniform_grid ROWS COLS c)
    end.
Proof.
  destruct c as [[c0 c1] c2].
  unfold libmk_create_instruction_full, libmk_create_instruction,
    libmk_exec_instruction.
  simpl. repeat split.
Qed.

End Instructions.

Lemma exec_uniform_color_witness :
  exists leds,
    libmk_exec_instruction 7 24 handle_ok (Some (red 1))
    = libmk_set_all_led_color handle_ok leds /\
    length leds = (7 * 24 * 3)%nat /\
    (forall row col k,
        (row < 7)%nat -> (col < 24)%nat -> (k < 3)%nat ->
        grid_at 24 leds row col k = color_at (color (red 1)) k).
Proof. apply (exec_uniform_color 7 24 handle_ok (red 1)). reflexivity. Defined.

(** ** Further properties of join and of the busy wait *)

Section JoinMore.

Variable CLOCKS_PER_SEC : positive.



(** X14: with a negative timeout and a clock that has not gone backwards,
    join on an Active controller reports the timeout at its first poll;
    with a zero timeout it does so only once the clock has advanced. *)
Theorem join_short_timeout c now rest t timeout :
  state c = LIBMK_STATE_ACTIVE ->
  (t <= now)%Z ->
  ((timeout < 0)%Q ->
   libmk_join_controller CLOCKS_PER_SEC ((c, now) :: rest) t timeout
   = Some (LIBMK_STATE_JOIN_ERR, c)) /\
  (now = t ->
   libmk_join_controller CLOCKS_PER_SEC ((c, now) :: rest) t 0
   = libmk_join_controller CLOCKS_PER_SEC rest t 0).
Proof.
  intros Hs Hnow. cbn [libmk_join_controller]. rewrite Hs. cbn [state_eqb negb].
  split.
  - intros Ht. rewrite deadline_passed_true; [reflexivity |].
    apply (Qlt_le_trans _ 0 _ Ht).
    unfold elapsed, Qle. simpl. lia.
  - intros ->. rewrite deadline_passed_false; [reflexivity |].
    unfold elapsed, Qle. simpl. lia.
Qed.

End JoinMore.


Lemma join_short_timeout_witness :
  libmk_join_controller 1000000 ((active_controller, 40) :: []) 40 (-1)
  = Some (LIBMK_STATE_JOIN_ERR, active_controller) /\
  libmk_join_controller 1000000 ((active_controller, 40) :: []) 40 0
  = libmk_join_controller 1000000 [] 40 0.
Proof.
  destruct (join_short_timeout 1000000 active_controller 40 [] 40 (-1)
              eq_refl (Z.le_refl 40)) as [H1 _].
  destruct (join_short_timeout 1000000 active_controller 40 [] 40 0
              eq_refl (Z.le_refl 40)) as [_ H2].
  split; [apply H1; reflexivity | apply H2; reflexivity].
Defined.

(** ** Release of a controller *)

Section ReleaseProperties.

Variable libmk_free_handle : LibMK_Handle -> LibMK_Result.

(** A controller that is not Active is torn down. *)
Lemma free_controller_tears_down c :
  state c <> LIBMK_STATE_ACTIVE ->
  In (Handle_free (device c))
     (snd (libmk_free_controller libmk_free_handle c)) /\
  (forall m, In (Mutex_destroy m)
                (snd (libmk_free_controller libmk_free_handle c))).
Proof.
  intros Hs. unfold libmk_free_controller, libmk_get_controller_state.
  apply state_eqb_neq in Hs. rewrite Hs.
  destruct (negb (result_eqb (libmk_free_handle (device c)) LIBMK_SUCCESS));
    (split; [simpl; auto 6 | intros []; simpl; auto 6]).
Qed.

(** X16: free refuses an Active controller with the still-active error
    and touches nothing.  In every other case it destroys the four mutexes
    and hands the handle to the transport; the memory of the controller is
    freed exactly when the result is success, so when the transport fails
    to release the handle free returns the transport's error and leaves a
    controller whose mutexes are destroyed. *)
Theorem free_controller_outcome c :
  (state c = LIBMK_STATE_ACTIVE ->
   libmk_free_controller libmk_free_handle c = (LIBMK_ERR_STILL_ACTIVE, [])) /\
  (state c <> LIBMK_STATE_ACTIVE ->
   In (Handle_free (device c))
      (snd (libmk_free_controller libmk_free_handle c)) /\
   (forall m, In (Mutex_destroy m)
                 (snd (libmk_free_controller libmk_free_handle c))) /\
   (libmk_free_handle (device c) <> LIBMK_SUCCESS ->
    fst (libmk_free_controller libmk_free_handle c)
    = libmk_free_handle (device c))) /\
  (In (Memory (Free Blk_controller))
      (snd (libmk_free_controller libmk_free_handle c))
   <-> fst (libmk_free_controller libmk_free_handle c) = LIBMK_SUCCESS).
Proof.
  unfold libmk_free_controller, libmk_get_controller_state.
  destruct (state_eqb (state c) LIBMK_STATE_ACTIVE) eqn:Es.
  - apply state_eqb_eq in Es. split; [reflexivity |]. split.
    + intros Hne. contradiction.
    + simpl. split; [intros [] | discriminate].
  - apply state_eqb_neq in Es. split; [intros Ha; contradiction |].
    destruct (result_eqb (libmk_free_handle (device c)) LIBMK_SUCCESS) eqn:Er;
      cbn [negb].
    + apply result_eqb_eq in Er. split.
      * intros _. split; [simpl; auto 6 |]. split.
        -- intros []; simpl; auto 6.
        -- intros Hne. contradiction.
      * simpl. split; [reflexivity | auto 7].
    + apply result_eqb_neq in Er. split.
      * intros _. split; [simpl; auto 6 |]. split.
        -- intros []; simpl; auto 6.
        -- reflexivity.
      * simpl. split.
        -- intros [H | [H | [H | [H | [H | []]]]]]; discriminate H.
        -- intros H. contradiction.
Qed.

(** X17: since start does not mark the controller Active, a controller
    that was not Active before a successful start is not refused by free
    although its worker thread has been created: the mutexes are destroyed
    and the handle is handed back to the transport. *)
Theorem free_after_start c c1 :
  state c <> LIBMK_STATE_ACTIVE ->
  libmk_start_controller c = (LIBMK_SUCCESS, c1, true) ->
  In (Handle_free (device c1))
     (snd (libmk_free_controller libmk_free_handle c1)) /\
  (forall m, In (Mutex_destroy m)
                (snd (libmk_free_controller libmk_free_handle c1))).
Proof.
  intros Hs Hstart.
  assert (Hs1 : state c1 <> LIBMK_STATE_ACTIVE).
  { pose proof (start_controller_state c) as H. rewrite Hstart in H.
    simpl in H. congruence. }
  destruct (free_controller_tears_down c1 Hs1) as [H1 H2].
  split; assumption.
Qed.

End ReleaseProperties.

Lemma free_controller_outcome_witness :
  let release := fun _ : LibMK_Handle => LIBMK_ERR_TRANSPORT 6 in
  libmk_free_controller release active_controller
  = (LIBMK_ERR_STILL_ACTIVE, []) /\
  fst (libmk_free_controller release (controller_at_rest handle_ok []))
  = LIBMK_ERR_TRANSPORT 6 /\
  ~ In (Memory (Free Blk_controller))
       (snd (libmk_free_controller release (controller_at_rest handle_ok []))).
Proof.
  intro release.
  destruct (free_controller_outcome release active_controller) as (H1 & _).
  destruct (free_controller_outcome release (controller_at_rest handle_ok []))
    as (_ & H2 & H3).
  split; [apply H1; reflexivity |]. split.
  - apply H2; discriminate.
  - intros Hin. apply H3 in Hin. discriminate Hin.
Defined.

Lemma free_after_start_witness :
  let release := fun _ : LibMK_Handle => LIBMK_SUCCESS in
  let c1 := set_device (controller_at_rest handle_ok [])
                       {| reply := reply handle_ok;
                          calls := [Call_enable_control] |} in
  In (Handle_free (device c1)) (snd (libmk_free_controller release c1)) /\
  (forall m, In (Mutex_destroy m) (snd (libmk_free_controller release c1))).
Proof.
  intros release c1.
  apply (free_after_start release (controller_at_rest handle_ok []) c1).
  - discriminate.
  - reflexivity.
Defined.

(** ** The payload of a full-grid instruction *)

Lemma store_length v : forall n b, length (store n v b) = length b.
Proof.
  induction n as [| n IH]; intros [| x b]; simpl; try reflexivity.
  now rewrite IH.
Qed.

Lemma nth_store_same v d : forall n b,
  (n < length b)%nat -> nth n (store n v b) d = v.
Proof.
  induction n as [| n IH]; intros [| x b] H; simpl in H |- *.
  - inversion H.
  - reflexivity.
  - inversion H.
  - apply IH. now apply PeanoNat.lt_S_n.
Qed.

Lemma nth_store_other v d : forall n k b,
  k <> n -> nth k (store n v b) d = nth k b d.
Proof.
  induction n as [| n IH]; intros k [| x b] H; simpl; try reflexivity.
  - destruct k; [congruence | reflexivity].
  - destruct k; [reflexivity |]. apply IH. congruence.
Qed.

Section Payload.

Variables ROWS COLS : nat.
Variable c : list Z.

Lemma copy_grid_rows buf :
  copy_grid ROWS COLS c buf
  = fold_left (fun b row => copy_row COLS c row b) (seq 0 ROWS) buf.
Proof. reflexivity. Qed.

Lemma copy_led_stores row col b :
  copy_led COLS c row col b
  = store (row * COLS + 2) (grid_at COLS c row col 2)
      (store (row * COLS + 1) (grid_at COLS c row col 1)
         (store (row * COLS + 0) (grid_at COLS c row col 0) b)).
Proof. reflexivity. Qed.

Lemma copy_led_length row col b :
  length (copy_led COLS c row col b) = length b.
Proof. rewrite copy_led_stores. now rewrite !store_length. Qed.

Lemma copy_led_other row col b k d :
  (forall j, (j < 3)%nat -> k <> (row * COLS + j)%nat) ->
  nth k (copy_led COLS c row col b) d = nth k b d.
Proof.
  intros H. rewrite copy_led_stores.
  rewrite !nth_store_other; [reflexivity | | |]; apply H; lia.
Qed.

Lemma copy_led_written row col b j d :
  (j < 3)%nat -> (row * COLS + j < length b)%nat ->
  nth (row * COLS + j) (copy_led COLS c row col b) d
  = grid_at COLS c row col j.
Proof.
  intros Hj Hb. rewrite copy_led_stores.
  destruct j as [| [| [| j]]]; try lia.
  - rewrite !nth_store_other by lia. apply nth_store_same. exact Hb.
  - rewrite nth_store_other by lia. apply nth_store_same.
    now rewrite store_length.
  - apply nth_store_same. now rewrite !store_length.
Qed.

Lemma copy_leds_length row : forall l b,
  length (fold_left (fun b col => copy_led COLS c row col b) l b) = length b.
Proof.
  induction l as [| col l IH]; intros b; simpl; [reflexivity |].
  now rewrite IH, copy_led_length.
Qed.

Lemma copy_leds_other row k d : forall l b,
  (forall j, (j < 3)%nat -> k <> (row * COLS + j)%nat) ->
  nth k (fold_left (fun b col => copy_led COLS c row col b) l b) d
  = nth k b d.
Proof.
  induction l as [| col l IH]; intros b H; simpl; [reflexivity |].
  rewrite IH by exact H. now apply copy_led_other.
Qed.

Lemma copy_row_length row b : length (copy_row COLS c row b) = length b.
Proof. apply copy_leds_length. Qed.

(** After the loop over the columns, the three bytes written for a row
    are those of its last led. *)
Lemma copy_row_written row b j d :
  (1 <= COLS)%nat ->
  (j < 3)%nat -> (row * COLS + j < length b)%nat ->
  nth (row * COLS + j) (copy_row COLS c row b) d
  = grid_at COLS c row (COLS - 1) j.
Proof.
  intros Hc Hj Hb. unfold copy_row.
  replace COLS with (S (COLS - 1)) at 2 by lia.
  rewrite seq_S, fold_left_app. simpl.
  apply copy_led_written; [exact Hj |].
  now rewrite copy_leds_length.
Qed.

Lemma copy_rows_length : forall l b,
  length (fold_left (fun b row => copy_row COLS c row b) l b) = length b.
Proof.
  induction l as [| row l IH]; intros b; simpl; [reflexivity |].
  now rewrite IH, copy_row_length.
Qed.

Lemma copy_rows_other k d : forall l b,
  (forall row j, In row l -> (j < 3)%nat -> k <> (row * COLS + j)%nat) ->
  nth k (fold_left (fun b row => copy_row COLS c row b) l b) d = nth k b d.
Proof.
  induction l as [| row l IH]; intros b H; simpl; [reflexivity |].
  rewrite IH by (intros r j Hr; apply H; now right).
  apply copy_leds_other. intros j. apply H. now left.
Qed.

(** X18: what a full-grid instruction really carries, for a keyboard with
    at least three columns.  In the payload of [ROWS * COLS * 3] bytes only
    the bytes [row * COLS + j] with [j < 3] are written, and each holds
    byte [j] of the last led of row [row] of the grid; every other byte is
    what the fresh buffer held. *)
Theorem create_instruction_all_bytes block block_next buf :
  (3 <= COLS)%nat ->
  length buf = (ROWS * COLS * 3)%nat ->
  exists payload,
    colors (fst (fst (libmk_create_instruction_all ROWS COLS block block_next
                                                   buf c)))
    = Some payload /\
    length payload = (ROWS * COLS * 3)%nat /\
    (forall row j,
        (row < ROWS)%nat -> (j < 3)%nat ->
        nth (row * COLS + j) payload 0 = grid_at COLS c row (COLS - 1) j) /\
    (forall k,
        (forall row j,
            (row < ROWS)%nat -> (j < 3)%nat -> k <> (row * COLS + j)%nat) ->
        nth k payload 0 = nth k buf 0).
Proof.
  intros Hc Hlen. exists (copy_grid ROWS COLS c buf).
  split; [reflexivity |]. rewrite copy_grid_rows. split; [| split].
  - now rewrite copy_rows_length.
  - intros row j Hr Hj.
    replace ROWS with (row + S (ROWS - S row))%nat at 1 by lia.
    rewrite seq_app, fold_left_app. simpl.
    rewrite copy_rows_other.
    + apply copy_row_written; [lia | exact Hj |].
      rewrite copy_rows_length, Hlen. nia.
    + intros r j' Hin Hj'. apply in_seq in Hin. nia.
  - intros k Hk. apply copy_rows_other.
    intros row j Hin Hj. apply in_seq in Hin. apply Hk; lia.
Qed.

End Payload.

Lemma create_instruction_all_bytes_witness :
  exists payload,
    colors (fst (fst (libmk_create_instruction_all 7 24 (red 0) []
                                                   stale_buffer first_led_red)))
    = Some payload /\
    length payload = (7 * 24 * 3)%nat /\
    (forall row j,
        (row < 7)%nat -> (j < 3)%nat ->
        nth (row * 24 + j) payload 0 = grid_at 24 first_led_red row (24 - 1) j)
    /\
    (forall k,
        (forall row j,
            (row < 7)%nat -> (j < 3)%nat -> k <> (row * 24 + j)%nat) ->
        nth k payload 0 = nth k stale_buffer 0).
Proof.
  apply (create_instruction_all_bytes 7 24 first_led_red (red 0) []
           stale_buffer).
  - lia.
  - reflexivity.
Defined.

(** ** How the worker ends, and what surrounds it *)

Lemma callers_no_stop ops : forall c,
  Forall (fun op => op <> Op_stop) ops ->
  exit_flag (fst (callers c ops)) = exit_flag c.
Proof.
  induction ops as [| op ops IH]; intros c H; simpl; [reflexivity |].
  inversion H as [| o l Hop Hl]; subst.
  assert (E : exit_flag (fst (caller c op)) = exit_flag c).
  { destruct op as [i i_next | n |]; simpl.
    - unfold libmk_sched_instruction. destruct (instr c); reflexivity.
    - unfold libmk_cancel_instruction.
      destruct (cancel_scan (instr c) n); reflexivity.
    - congruence. }
  destruct (caller c op) as [c1 ev1]. simpl in E.
  specialize (IH c1 Hl). destruct (callers c1 ops) as [c2 ev2]. simpl in *.
  congruence.
Qed.

Section WorkerEnd.

Variables ROWS COLS : nat.

(** An iteration never touches the exit flag, and leaves the loop only on
    the exit flag or with an error recorded. *)
Lemma run_iteration_exit c :
  exit_flag (snd (fst (run_iteration ROWS COLS c))) = exit_flag c /\
  (fst (fst (run_iteration ROWS COLS c)) = Break ->
   exit_flag c = true \/
   error (snd (fst (run_iteration ROWS COLS c))) <> LIBMK_SUCCESS).
Proof.
  unfold run_iteration.
  destruct (exit_flag c) eqn:Ex; [split; [exact Ex | now left] |].
  destruct (instr c) as [| old nxt]; [split; [exact Ex | discriminate] |].
  destruct (libmk_exec_instruction ROWS COLS (device c) (Some old)) as [dev r].
  destruct (result_eqb r LIBMK_SUCCESS) eqn:Er; cbn [negb fst snd].
  - split; [exact Ex | discriminate].
  - apply result_eqb_neq in Er.
    destruct (set_controller_error_fields (set_device c dev) r)
      as (_ & _ & He).
    split.
    + unfold libmk_set_controller_error.
      destruct (result_eqb (error (set_device c dev)) LIBMK_SUCCESS);
        exact Ex.
    + intros _. right. rewrite He. simpl.
      destruct (result_eqb (error c) LIBMK_SUCCESS) eqn:E0; [exact Er |].
      now apply result_eqb_neq.
Qed.

Lemma run_loop_break_without_stop env : forall c c1 ev,
  exit_flag c = false ->
  no_stop env ->
  run_loop ROWS COLS env c = (Break, c1, ev) ->
  error c1 <> LIBMK_SUCCESS.
Proof.
  induction env as [| ops env IH]; intros c c1 ev Hx Hns; simpl;
    [discriminate |].
  inversion Hns as [| o l Hops Henv]; subst.
  pose proof (callers_no_stop ops c Hops) as H0.
  destruct (callers c ops) as [c0 ev0]. simpl in H0.
  destruct (run_iteration_exit c0) as [Hflag Hbreak].
  destruct (run_iteration ROWS COLS c0) as [[f ci] evi]. simpl in Hflag, Hbreak.
  destruct f.
  - destruct (run_loop ROWS COLS env ci) as [[f2 c2] ev2] eqn:E2.
    intros E. injection E as -> -> _.
    apply (IH ci c1 ev2); [congruence | exact Henv | exact E2].
  - intros E. injection E as <- _.
    destruct (Hbreak eq_refl) as [Ht | He]; [congruence | exact He].
Qed.

(** X19: a worker that returns without stop having been called, before
    or during its run, has an error recorded: the only other way out of
    the loop is a led update the transport rejected. *)
Theorem worker_returns_with_error env c c' ev :
  exit_flag c = false ->
  no_stop env ->
  libmk_run_controller ROWS COLS env c = Some (c', ev) ->
  libmk_get_controller_error c' <> LIBMK_SUCCESS.
Proof.
  intros Hx Hns. unfold libmk_run_controller.
  destruct (run_loop ROWS COLS env c) as [[f c1] ev1] eqn:E.
  destruct f; [discriminate |].
  intros E'. injection E' as <- _.
  pose proof (run_loop_break_without_stop env c c1 ev1 Hx Hns E) as Hne.
  destruct (run_shutdown_fields c1) as (_ & _ & Se).
  unfold libmk_get_controller_error. now rewrite (Se Hne).
Qed.

Lemma run_iteration_accepting c :
  accepts_all (device c) ->
  accepts_all (device (snd (fst (run_iteration ROWS COLS c)))) /\
  error (snd (fst (run_iteration ROWS COLS c))) = error c.
Proof.
  intros Hacc. unfold run_iteration.
  destruct (exit_flag c); [split; [exact Hacc | reflexivity] |].
  destruct (instr c) as [| old nxt]; [split; [exact Hacc | reflexivity] |].
  rewrite exec_instruction_call. unfold transport.
  rewrite (Hacc (calls (device c)) (exec_call ROWS COLS old)).
  cbn [result_eqb negb fst snd]. split; [exact Hacc | reflexivity].
Qed.

Lemma run_loop_accepting env : forall c,
  accepts_all (device c) ->
  accepts_all (device (snd (fst (run_loop ROWS COLS env c)))) /\
  error (snd (fst (run_loop ROWS COLS env c))) = error c.
Proof.
  induction env as [| ops env IH]; intros c Hacc; simpl;
    [split; [exact Hacc | reflexivity] |].
  destruct (callers_keeps ops c) as (Hd & He & _).
  destruct (callers c ops) as [c0 ev0]. simpl in Hd, He.
  assert (H0 : accepts_all (device c0)) by (rewrite Hd; exact Hacc).
  destruct (run_iteration_accepting c0 H0) as [Ha1 He1].
  destruct (run_iteration ROWS COLS c0) as [[f c1] ev1]. simpl in Ha1, He1.
  destruct f.
  - destruct (IH c1 Ha1) as [Ha2 He2].
    destruct (run_loop ROWS COLS env c1) as [[f2 c2] ev2]. simpl in *.
    split; [exact Ha2 | congruence].
  - simpl. split; [exact Ha1 | congruence].
Qed.

(** X20: on a transport that accepts every call, the worker records no
    error: whatever the other threads do, the error slot after the run is
    what it was before. *)
Theorem worker_records_no_error env c c' ev :
  accepts_all (device c) ->
  libmk_run_controller ROWS COLS env c = Some (c', ev) ->
  libmk_get_controller_error c' = error c.
Proof.
  intros Hacc. unfold libmk_run_controller.
  destruct (run_loop_accepting env c Hacc) as [Ha He].
  destruct (run_loop ROWS COLS env c) as [[f c1] ev1]. simpl in Ha, He.
  destruct f; [discriminate |].
  intros E. injection E as <- _.
  unfold libmk_get_controller_error, run_shutdown, libmk_disable_control,
    transport.
  rewrite (Ha (calls (device c1)) Call_disable_control).
  cbn [result_eqb negb]. exact He.
Qed.

(** X21: an instruction cancelled before the worker reaches it is never
    executed.  With one instruction queued and a cancel of its id issued
    before the next iteration, the instruction is freed by the cancel, the
    transport receives nothing, and the worker idles on the empty queue. *)
Theorem cancel_before_execution n c x :
  instr c = [x] ->
  exit_flag c = false ->
  run_loop ROWS COLS ([Op_cancel (id x)] :: repeat [] n) c
  = (Continue, set_instr c [], libmk_free_instruction x).
Proof.
  intros Hq Hx. cbn [run_loop callers caller].
  unfold libmk_cancel_instruction. rewrite Hq. cbn [cancel_scan].
  rewrite Z.eqb_refl. cbn [fst snd].
  assert (Hidle : forall m c0,
             instr c0 = [] -> exit_flag c0 = false ->
             run_loop ROWS COLS (repeat [] m) c0 = (Continue, c0, [])).
  { induction m as [| m IH]; intros c0 H1 H2; simpl; [reflexivity |].
    unfold run_iteration. rewrite H2, H1. now rewrite (IH c0 H1 H2). }
  unfold run_iteration at 1. cbn [exit_flag set_instr instr]. rewrite Hx.
  rewrite (Hidle n (set_instr c []) eq_refl Hx).
  now rewrite !app_nil_r.
Qed.

(** X22: ids are reused.  Once the worker has executed everything that
    was queued, on a transport that accepts every led update, the next
    instruction enqueued gets the id 1 again. *)
Theorem id_reused_after_drain c i :
  accepts_leds (device c) ->
  exit_flag c = false ->
  let c' := snd (fst (run_loop ROWS COLS (repeat [] (length (instr c))) c)) in
  instr (snd (libmk_sched_instruction c' i [])) = [set_id i 1].
Proof.
  intros Hacc Hx c'. subst c'.
  rewrite (run_loop_fifo ROWS COLS (instr c) c eq_refl Hacc Hx).
  reflexivity.
Qed.

End WorkerEnd.

(** X23: start creates the worker thread exactly when the transport
    accepts the enable request and returns the transport's code otherwise;
    in both cases the transport has received that one request and nothing
    else in the controller has changed. *)
Theorem start_controller_outcome c :
  let r := reply (device c) (calls (device c)) Call_enable_control in
  libmk_start_controller c
  = (r,
     set_device c {| reply := reply (device c);
                     calls := calls (device c) ++ [Call_enable_control] |},
     result_eqb r LIBMK_SUCCESS).
Proof.
  intro r. unfold libmk_start_controller, libmk_enable_control, transport.
  fold r. destruct (result_eqb r LIBMK_SUCCESS) eqn:E; cbn [negb].
  - apply result_eqb_eq in E. now rewrite E.
  - reflexivity.
Qed.

Lemma worker_returns_with_error_witness :
  exists c' ev,
    libmk_run_controller 7 24 [[]; [Op_sched (red 0) []]]
      (controller_at_rest
         (handle_rejecting (LIBMK_ERR_TRANSPORT 2) LIBMK_SUCCESS) [])
    = Some (c', ev) /\
    libmk_get_controller_error c' <> LIBMK_SUCCESS.
Proof.
  eexists. eexists.
  assert (E : libmk_run_controller 7 24 [[]; [Op_sched (red 0) []]]
                (controller_at_rest
                   (handle_rejecting (LIBMK_ERR_TRANSPORT 2) LIBMK_SUCCESS) [])
              = Some (run_shutdown
                        (libmk_set_controller_error
                           (set_device
                              (controller_at_rest
                                 (handle_rejecting (LIBMK_ERR_TRANSPORT 2)
                                                   LIBMK_SUCCESS)
                                 [red 1])
                              {| reply := reply (handle_rejecting
                                                   (LIBMK_ERR_TRANSPORT 2)
                                                   LIBMK_SUCCESS);
                                 calls := [exec_call 7 24 (red 1)] |})
                           (LIBMK_ERR_TRANSPORT 2)),
                      [])) by reflexivity.
  split; [exact E |].
  refine (worker_returns_with_error 7 24 [[]; [Op_sched (red 0) []]]
            (controller_at_rest
               (handle_rejecting (LIBMK_ERR_TRANSPORT 2) LIBMK_SUCCESS) [])
            _ _ eq_refl _ E).
  repeat constructor; discriminate.
Defined.

Lemma worker_records_no_error_witness :
  exists c' ev,
    libmk_run_controller 7 24 [[]; [Op_stop]]
      (controller_at_rest handle_ok [red 1]) = Some (c', ev) /\
    libmk_get_controller_error c'
    = error (controller_at_rest handle_ok [red 1]).
Proof.
  eexists. eexists.
  assert (E : libmk_run_controller 7 24 [[]; [Op_stop]]
                (controller_at_rest handle_ok [red 1])
              = Some (run_shutdown
                        (libmk_stop_controller
                           (set_instr
                              (set_device
                                 (controller_at_rest handle_ok [red 1])
                                 {| reply := reply handle_ok;
                                    calls := [exec_call 7 24 (red 1)] |})
                              [])),
                      libmk_free_instruction (red 1))) by reflexivity.
  split; [exact E |].
  refine (worker_records_no_error 7 24 [[]; [Op_stop]]
            (controller_at_rest handle_ok [red 1]) _ _ _ E).
  intros hist k. reflexivity.
Defined.

Lemma cancel_before_execution_witness :
  run_loop 7 24 ([Op_cancel (id (red 1))] :: repeat [] 3)
           (controller_at_rest handle_ok [red 1])
  = (Continue, set_instr (controller_at_rest handle_ok [red 1]) [],
     libmk_free_instruction (red 1)).
Proof.
  apply (cancel_before_execution 7 24 3
           (controller_at_rest handle_ok [red 1]) (red 1)); reflexivity.
Defined.

Lemma id_reused_after_drain_witness :
  let c := controller_at_rest handle_ok [red 1; red 2] in
  let c' := snd (fst (run_loop 7 24 (repeat [] (length (instr c))) c)) in
  instr (snd (libmk_sched_instruction c' (red 0) [])) = [set_id (red 0) 1].
Proof.
  intro c. apply (id_reused_after_drain 7 24 c (red 0)).
  - exact accepts_leds_handle_ok.
  - reflexivity.
Defined.

(** ** Join and the busy wait in binary64 *)

(** The constants are the doubles the C literals 1.0, 2.0, 0.3 and 0.1
    denote: the quotients of small integers, correctly rounded. *)
Lemma doubles_of_literals :
  one_second = double_of_integer 1 /\
  two_seconds = double_of_integer 2 /\
  three_tenths = SFdiv 53 1024 (double_of_integer 3) (double_of_integer 10) /\
  one_tenth = SFdiv 53 1024 (double_of_integer 1) (double_of_integer 10).
Proof. repeat split. Qed.

(** The loop of join is the same in both arithmetics: the two embeddings
    agree on every sequence of polls on which their deadline tests
    agree. *)
Lemma join_controller_arithmetics clocks_per_sec t tq td : forall polls,
  Forall (fun poll =>
            deadline_passed clocks_per_sec (snd poll) t tq
            = deadline_passed_binary64 clocks_per_sec (snd poll) t td) polls ->
  libmk_join_controller clocks_per_sec polls t tq
  = libmk_join_controller_binary64 clocks_per_sec polls t td.
Proof.
  induction polls as [| [c now] polls IH]; intros H; [reflexivity |].
  inversion H as [| p l Hd Hl]; subst. simpl in Hd.
  cbn [libmk_join_controller libmk_join_controller_binary64].
  rewrite Hd, (IH Hl). reflexivity.
Qed.

Section JoinBinary64.

Variable CLOCKS_PER_SEC : positive.





(** A controller that is not Active at the first poll is returned at once
    in binary64 too: the deadline test is not evaluated. *)
Lemma join_controller_binary64_state_first c now rest t timeout :
  state c <> LIBMK_STATE_ACTIVE ->
  libmk_join_controller_binary64 CLOCKS_PER_SEC ((c, now) :: rest) t timeout
  = Some (state c, c).
Proof.
  intros Hs. cbn [libmk_join_controller_binary64].
  apply state_eqb_neq in Hs. now rewrite Hs.
Qed.

End JoinBinary64.



